(** * The persistence layer of bolt-diy on Cloudflare: D1, R2 and the file manager

    A shallow embedding of
      - [app/lib/persistence/cloudflare-db.ts]       (chat rows in D1),
      - [app/lib/persistence/cloudflare-storage.ts]  (blobs in R2),
      - [app/lib/persistence/cloudflare-file-manager.ts] (blob + metadata row),
    and the properties of it that the specification states.

    JavaScript strings are [string]s, compared with [=] as [===] and
    [Array.prototype.includes] compare them.  The D1 tables and the R2 bucket
    are finite maps keyed by their primary key.  Every [async] function of the
    source is a computation of the monad [M] below: it threads the state of
    the backends and may throw. *)

From stdpp Require Import gmap strings list fin_maps pretty sorting.
From Stdlib Require Import ZArith Lia Ascii.

Open Scope Z_scope.

(** ** Strings *)

Module Str.

(** [s.startsWith(p)], which is also how R2 matches [list({prefix})]. *)
Fixpoint starts_with (p s : string) : bool :=
  match p, s with
  | EmptyString, _ => true
  | String a p', String b s' => if decide (a = b) then starts_with p' s' else false
  | String _ _, EmptyString => false
  end.

(** [s.slice(n)] for [0 <= n]. *)
Fixpoint drop (n : nat) (s : string) : string :=
  match n, s with
  | O, _ => s
  | S n', String _ s' => drop n' s'
  | S _, EmptyString => EmptyString
  end.

(** [s.replace(pat, '')] with a string pattern: only the first occurrence
    of [pat] goes, wherever it stands; the empty pattern matches at index 0. *)
Fixpoint remove_first (pat s : string) : string :=
  if starts_with pat s then drop (String.length pat) s
  else match s with
       | EmptyString => EmptyString
       | String c s' => String c (remove_first pat s')
       end.

(** [s.replace(/\/+/g, '/')]: every maximal run of slashes becomes one. *)
Fixpoint collapse_slashes (s : string) : string :=
  match s with
  | EmptyString => EmptyString
  | String c s' =>
      if decide (c = "/"%char)
      then match s' with
           | String c' _ => if decide (c' = "/"%char) then collapse_slashes s'
                            else String c (collapse_slashes s')
           | EmptyString => String c EmptyString
           end
      else String c (collapse_slashes s')
  end.

(** The rest of [s] after the character [c] it must start with. *)
Definition expect (c : ascii) (s : string) : option string :=
  match s with
  | String c' s' => if decide (c' = c) then Some s' else None
  | EmptyString => None
  end.

(** No two adjacent slashes. *)
Fixpoint no_slash_run (s : string) : bool :=
  match s with
  | String c ((String c' _) as s') =>
      if decide (c = "/"%char) then
        if decide (c' = "/"%char) then false else no_slash_run s'
      else no_slash_run s'
  | _ => true
  end.

End Str.

(** ** [getUrlId]: the search for a free url id

    [idList] is what [getUrlIds] read: the non-null [urlId]s of the table.
    The counter [i] of the source is a JavaScript number; it never leaves
    the range where numbers are exact integers, see [getUrlId_pure_bound]. *)

(** The template literal [`${id}-${i}`]. *)
Definition suffixed (id : string) (i : nat) : string :=
  id +:+ "-" +:+ pretty i.

(** [while (idList.includes(`${id}-${i}`)) i++; return `${id}-${i}`],
    run for at most [fuel] tests of the condition. *)
Fixpoint getUrlId_loop (fuel : nat) (idList : list string) (id : string) (i : nat)
  : option string :=
  match fuel with
  | O => None
  | S fuel' =>
      if bool_decide (suffixed id i ∈ idList)
      then getUrlId_loop fuel' idList id (S i)
      else Some (suffixed id i)
  end.

(** The body of [getUrlId] after the query.  [None]: the loop is still
    running after [fuel] tests. *)
Definition getUrlId_fuel (fuel : nat) (idList : list string) (id : string)
  : option string :=
  if bool_decide (id ∈ idList) then getUrlId_loop fuel idList id 2 else Some id.

(** One test more than there are url ids is always enough
    ([getUrlId_fuel_enough]); the default is never reached. *)
Definition getUrlId_pure (idList : list string) (id : string) : string :=
  default id (getUrlId_fuel (S (length idList)) idList id).

(** ** Exceptions and results *)

(** What a computation can throw. *)
Inductive Error :=
| BackendFailure (code : nat)          (* a D1 or R2 call rejected *)
| ConstraintViolation (what : string)  (* D1: SQLITE_CONSTRAINT *)
| JsError (message : string)           (* [new Error(message)] *)
| JsonSyntaxError.                     (* [JSON.parse] on malformed text *)

Inductive Result (A : Type) :=
| Ok (a : A)
| Throw (e : Error).
Arguments Ok {A} a.
Arguments Throw {A} e.

(** ** The backends *)

(** A row of [chats]; the primary key [id] is the key of the table. *)
Record ChatRow := {
  chat_urlId : option string;
  chat_messages : string;
  chat_description : option string;
  chat_timestamp : string;
  chat_metadata : option string;
}.

(** A row of [files]; the primary key [id] is the key of the table. *)
Record FileRow := {
  file_chatId : option string;
  file_path : string;
  file_contentType : option string;
  file_size : Z;
  file_timestamp : string;
  file_metadata : option string;
}.

(** An object of the R2 bucket: its bytes and its [customMetadata]
    (a field of the object literal may be [undefined]: [None]). *)
Record R2Object := {
  obj_body : list Z;
  obj_customMetadata : option (gmap string (option string));
}.

(** The statements the source prepares against D1. *)
Inductive Statement :=
| UpsertChat (id : string)
| SelectChatById (id : string)
| SelectChatByUrlId (urlId : string)
| SelectMaxId
| SelectUrlIds
| InsertFile (id : string)
| DeleteFile (id : string)
| SelectFile (id : string).

(** The calls that leave the worker. *)
Inductive Call :=
| D1 (st : Statement)
| R2Put (key : string)
| R2Get (key : string)
| R2Body (key : string)     (* [object.arrayBuffer()], [object.text()] *)
| R2Head (key : string)
| R2Delete (key : string)
| R2List (prefix : string).

Global Instance Statement_eq_dec : EqDecision Statement.
Proof. solve_decision. Defined.
Global Instance Call_eq_dec : EqDecision Call.
Proof. solve_decision. Defined.

(** The state a computation runs in.  [calls] is the log of backend calls,
    oldest first.  The three oracles are what the worker does not decide:
    whether its n-th backend call is rejected, what the clock shows at the
    n-th [new Date()], and what the n-th [crypto.randomUUID()] returns. *)
Record World := {
  chats : gmap string ChatRow;
  files : gmap string FileRow;
  bucket : gmap string R2Object;
  calls : list Call;
  dates : nat;
  uuids : nat;
  rejects : nat → option Error;
  clock : nat → Z;
  entropy : nat → string;
}.

Definition set_chats (t : gmap string ChatRow) (w : World) : World :=
  {| chats := t; files := files w; bucket := bucket w; calls := calls w;
     dates := dates w; uuids := uuids w; rejects := rejects w;
     clock := clock w; entropy := entropy w |}.
Definition set_files (t : gmap string FileRow) (w : World) : World :=
  {| chats := chats w; files := t; bucket := bucket w; calls := calls w;
     dates := dates w; uuids := uuids w; rejects := rejects w;
     clock := clock w; entropy := entropy w |}.
Definition set_bucket (b : gmap string R2Object) (w : World) : World :=
  {| chats := chats w; files := files w; bucket := b; calls := calls w;
     dates := dates w; uuids := uuids w; rejects := rejects w;
     clock := clock w; entropy := entropy w |}.
Definition log_call (c : Call) (w : World) : World :=
  {| chats := chats w; files := files w; bucket := bucket w;
     calls := calls w ++ [c];
     dates := dates w; uuids := uuids w; rejects := rejects w;
     clock := clock w; entropy := entropy w |}.
Definition tick_date (w : World) : World :=
  {| chats := chats w; files := files w; bucket := bucket w; calls := calls w;
     dates := S (dates w); uuids := uuids w; rejects := rejects w;
     clock := clock w; entropy := entropy w |}.
Definition tick_uuid (w : World) : World :=
  {| chats := chats w; files := files w; bucket := bucket w; calls := calls w;
     dates := dates w; uuids := S (uuids w); rejects := rejects w;
     clock := clock w; entropy := entropy w |}.

(** Whether the next backend call is rejected, and with what. *)
Definition next_reject (w : World) : option Error :=
  rejects w (length (calls w)).

(** ** The monad of [async] functions *)

Definition M (A : Type) : Type := World → Result A * World.

Global Instance M_ret : MRet M := λ A a w, (Ok a, w).
Global Instance M_bind : MBind M := λ A B f m w,
  match m w with
  | (Ok a, w') => f a w'
  | (Throw e, w') => (Throw e, w')
  end.

Global Instance M_fmap : FMap M := λ A B f m w,
  match m w with
  | (Ok a, w') => (Ok (f a), w')
  | (Throw e, w') => (Throw e, w')
  end.

(** [throw e]. *)
Definition throw {A} (e : Error) : M A := λ w, (Throw e, w).

(** [try { body } catch (error) { handler(error) }]. *)
Definition try_catch {A} (body : M A) (handler : Error → M A) : M A := λ w,
  match body w with
  | (Ok a, w') => (Ok a, w')
  | (Throw e, w') => handler e w'
  end.

(** [try { body } catch (error) { logger.error(..); throw error; }], the
    frame of nearly every function of the source.  The logger writes to the
    console only and is left out of the state. *)
Definition logged {A} (body : M A) : M A := try_catch body throw.

(** One call to a backend: it is logged, then either rejected by the
    backend or carried out. *)
Definition backend {A} (c : Call) (effect : M A) : M A := λ w,
  match next_reject w with
  | Some e => (Throw e, log_call c w)
  | None => effect (log_call c w)
  end.

(** [new Date()]: the time value the clock shows. *)
Definition Date_now : M Z := λ w, (Ok (clock w (dates w)), tick_date w).

(** [crypto.randomUUID()]. *)
Definition randomUUID : M string := λ w, (Ok (entropy w (uuids w)), tick_uuid w).

(** ** What the platform provides

    [JSON.stringify] and [JSON.parse] at the types the source uses them at,
    the shapes of [Message] (package [ai]) and of the chat metadata, what
    [Date.parse] does with a string that is not in the ISO format, and
    [TextDecoder]: none of it is code of the repository, so it is a
    parameter of the development. *)

Class JSON (A : Type) := {
  JSON_stringify : A → string;
  (** [None]: [JSON.parse] throws *)
  JSON_parse : string → option A;
}.

Class Runtime := {
  Message : Type;
  Message_id : Message → string;
  IChatMetadata : Type;
  JSON_messages :: JSON (list Message);
  JSON_chat_metadata :: JSON IChatMetadata;
  JSON_record :: JSON (gmap string string);
  Date_parse_other : string → option Z;
  TextDecoder_decode : list Z → string;
}.

(** [JSON.parse(text)] as a computation. *)
Definition parse_json `{JSON A} (text : string) : M A :=
  match JSON_parse text with
  | Some a => mret a
  | None => throw JsonSyntaxError
  end.

(** ** File contents and [TextEncoder] *)

(** [string | ArrayBuffer | Uint8Array].  A string of file contents is the
    list of its UTF-16 code units, since its encoding is what counts. *)
Inductive FileData :=
| DataString (units : list Z)
| DataArrayBuffer (bytes : list Z)
| DataUint8Array (bytes : list Z).

Definition is_high_surrogate (u : Z) : bool := (55296 <=? u) && (u <=? 56319).
Definition is_low_surrogate (u : Z) : bool := (56320 <=? u) && (u <=? 57343).

(** The UTF-8 bytes of one code point. *)
Definition utf8_of_code_point (c : Z) : list Z :=
  if c <? 128 then [c]
  else if c <? 2048 then [192 + c / 64; 128 + c mod 64]
  else if c <? 65536 then
    [224 + c / 4096; 128 + (c / 64) mod 64; 128 + c mod 64]
  else [240 + c / 262144; 128 + (c / 4096) mod 64;
        128 + (c / 64) mod 64; 128 + c mod 64].

(** [new TextEncoder().encode(s)]: a surrogate pair is one code point, a
    lone surrogate is replaced by U+FFFD. *)
Fixpoint TextEncoder_encode (units : list Z) : list Z :=
  match units with
  | [] => []
  | u :: rest =>
      if is_high_surrogate u then
        match rest with
        | v :: rest' =>
            if is_low_surrogate v
            then utf8_of_code_point (65536 + (u - 55296) * 1024 + (v - 56320))
                   ++ TextEncoder_encode rest'
            else utf8_of_code_point 65533 ++ TextEncoder_encode rest
        | [] => utf8_of_code_point 65533
        end
      else if is_low_surrogate u
      then utf8_of_code_point 65533 ++ TextEncoder_encode rest
      else utf8_of_code_point u ++ TextEncoder_encode rest
  end.

(** The bytes R2 stores for a value passed to [put]. *)
Definition bytes_of (data : FileData) : list Z :=
  match data with
  | DataString units => TextEncoder_encode units
  | DataArrayBuffer bytes => bytes
  | DataUint8Array bytes => bytes
  end.

(** ** [CloudflareStorage] (cloudflare-storage.ts) *)

Record CloudflareStorage := { storage_prefix : string }.

(** The order R2 lists keys in. *)
Definition key_le (k1 k2 : string) : Prop := String.leb k1 k2 = true.
Global Instance key_le_dec : RelDecision key_le.
Proof. intros k1 k2. unfold key_le. apply _. Defined.

(** The keys of the bucket that start with [prefix]. *)
Definition r2_matching (b : gmap string R2Object) (prefix : string) : list string :=
  filter (λ k, Str.starts_with prefix k = true) (map_to_list b).*1.

(** R2's [list({prefix, limit})]: the keys that start with [prefix], in
    lexicographic order, at most [limit] of them. *)
Definition r2_list (b : gmap string R2Object) (prefix : string) (limit : nat)
  : list string :=
  take limit (merge_sort key_le (r2_matching b prefix)).

Module CloudflareStorage.
Section methods.
Context `{Runtime} (this : CloudflareStorage).

Definition getFullKey (key : string) : string :=
  if decide (storage_prefix this = "") then key
  else Str.collapse_slashes (storage_prefix this +:+ "/" +:+ key).

Definition storeFile (key : string) (data : FileData)
    (metadata : option (gmap string (option string))) : M string :=
  logged (
    let fullKey := getFullKey key in
    backend (R2Put fullKey) (λ w,
      (Ok (), set_bucket
         (<[fullKey := {| obj_body := bytes_of data;
                          obj_customMetadata := metadata |}]> (bucket w)) w));;
    mret fullKey).

Definition getFile (key : string) : M (option (list Z)) :=
  logged (
    let fullKey := getFullKey key in
    object ← backend (R2Get fullKey) (λ w, (Ok (bucket w !! fullKey), w));
    match object with
    | None => mret None
    | Some o =>
        bytes ← backend (R2Body fullKey) (mret (obj_body o));
        mret (Some bytes)
    end).

Definition getFileAsText (key : string) : M (option string) :=
  logged (
    let fullKey := getFullKey key in
    object ← backend (R2Get fullKey) (λ w, (Ok (bucket w !! fullKey), w));
    match object with
    | None => mret None
    | Some o =>
        text ← backend (R2Body fullKey) (mret (TextDecoder_decode (obj_body o)));
        mret (Some text)
    end).

Definition deleteFile (key : string) : M () :=
  logged (
    let fullKey := getFullKey key in
    backend (R2Delete fullKey) (λ w,
      (Ok (), set_bucket (delete fullKey (bucket w)) w))).

(** [prefix] and [limit] default to [''] and [1000]. *)
Definition listFiles (prefix : option string) (limit : option nat)
  : M (list string) :=
  logged (
    let prefix := default "" prefix in
    let limit := default 1000%nat limit in
    let fullPrefix := getFullKey prefix in
    listed ← backend (R2List fullPrefix) (λ w,
      (Ok (r2_list (bucket w) fullPrefix limit), w));
    mret (Str.remove_first (storage_prefix this) <$> listed)).

(** [null] when there is no object, else its [customMetadata]. *)
Definition getFileMetadata (key : string)
  : M (option (option (gmap string (option string)))) :=
  logged (
    let fullKey := getFullKey key in
    object ← backend (R2Head fullKey) (λ w, (Ok (bucket w !! fullKey), w));
    match object with
    | None => mret None
    | Some o => mret (Some (obj_customMetadata o))
    end).

Definition updateFileMetadata (key : string)
    (metadata : gmap string (option string)) : M () :=
  logged (
    let fullKey := getFullKey key in
    object ← backend (R2Get fullKey) (λ w, (Ok (bucket w !! fullKey), w));
    match object with
    | None => throw (JsError ("File not found: " +:+ fullKey))
    | Some o =>
        bytes ← backend (R2Body fullKey) (mret (obj_body o));
        backend (R2Put fullKey) (λ w,
          (Ok (), set_bucket
             (<[fullKey := {| obj_body := bytes;
                              obj_customMetadata := Some metadata |}]> (bucket w)) w))
    end).

(** The one [catch] that does not rethrow. *)
Definition fileExists (key : string) : M bool :=
  try_catch (
    let fullKey := getFullKey key in
    object ← backend (R2Head fullKey) (λ w, (Ok (bucket w !! fullKey), w));
    mret (bool_decide (is_Some object)))
  (λ _, mret false).

End methods.
End CloudflareStorage.

(** ** Decimal digits *)

Definition digit_char (n : Z) : ascii :=
  match n with
  | 0 => "0" | 1 => "1" | 2 => "2" | 3 => "3" | 4 => "4"
  | 5 => "5" | 6 => "6" | 7 => "7" | 8 => "8" | _ => "9"
  end%char.

Definition digit_value (c : ascii) : option Z :=
  if decide (c = "0"%char) then Some 0
  else if decide (c = "1"%char) then Some 1
  else if decide (c = "2"%char) then Some 2
  else if decide (c = "3"%char) then Some 3
  else if decide (c = "4"%char) then Some 4
  else if decide (c = "5"%char) then Some 5
  else if decide (c = "6"%char) then Some 6
  else if decide (c = "7"%char) then Some 7
  else if decide (c = "8"%char) then Some 8
  else if decide (c = "9"%char) then Some 9
  else None.

(** ** JavaScript numbers that hold integers

    A number is an IEEE 754 double.  Those the source computes with are
    integers (a row count, an id), so a number is the [Z] it is equal to,
    and every operation rounds its exact result to the nearest double. *)

Module Number.

(** The nearest double to an integer, ties to the even significand:
    below [2^53] every integer is a double; from there on a double has 53
    significant bits.  (Integers of 64 bits are far from overflow.) *)
Definition round53 (z : Z) : Z :=
  let a := Z.abs z in
  if a <? 2 ^ 53 then z
  else
    let e := Z.log2 a - 52 in
    let q := a / 2 ^ e in
    let r := a mod 2 ^ e in
    let half := 2 ^ (e - 1) in
    let q' := if r <? half then q
              else if half <? r then q + 1
              else if Z.even q then q else q + 1 in
    Z.sgn z * (q' * 2 ^ e).

(** [a + b]. *)
Definition add (a b : Z) : Z := round53 (a + b).

(** The decimal with the fewest significant digits that reads back as the
    double [a] (for [0 <= a]), the closest to [a] if there are two with as
    few: the digits [Number.prototype.toString] prints.  [exps] are the
    powers of ten to round to, the largest first. *)
Fixpoint shortest_from (exps : list Z) (a : Z) : Z :=
  match exps with
  | [] => a
  | e :: exps' =>
      let lo := a / 10 ^ e * 10 ^ e in
      let hi := lo + 10 ^ e in
      let lo_ok := round53 lo =? a in
      let hi_ok := round53 hi =? a in
      if lo_ok && hi_ok then (if a - lo <=? hi - a then lo else hi)
      else if lo_ok then lo
      else if hi_ok then hi
      else shortest_from exps' a
  end.

Definition shortest (a : Z) : Z :=
  shortest_from (Z.of_nat <$> reverse (seq 0 (String.length (pretty a)))) a.

(** [String(z)] for an integer below [10^21] in magnitude. *)
Definition toString (z : Z) : string :=
  if z <? 0 then "-" +:+ pretty (shortest (- z)) else pretty (shortest z).

End Number.

(** ** Dates

    A time value is a number of milliseconds since 1970-01-01T00:00:00Z,
    at most 100,000,000 days away from it. *)

Module Date.

Definition ms_per_day : Z := 86400000.
Definition max_time : Z := 8640000000000000.

Definition time_value (t : Z) : Prop := - max_time ≤ t ≤ max_time.

Definition is_leap (y : Z) : bool :=
  (y mod 4 =? 0) && (negb (y mod 100 =? 0) || (y mod 400 =? 0)).

(** The days of a month, in a leap year or not. *)
Definition month_days (leap : bool) (m : Z) : Z :=
  if m =? 2 then (if leap then 29 else 28)
  else if (m =? 4) || (m =? 6) || (m =? 9) || (m =? 11) then 30
  else 31.

Definition days_in_month (y m : Z) : Z := month_days (is_leap y) m.

(** Years are counted from March within 400-year eras of 146097 days.
    The days of an era before its year [yoe]. *)
Definition days_before_year (yoe : Z) : Z := 365 * yoe + yoe / 4 - yoe / 100.

(** The year of the era that the day [doe] of the era is in. *)
Definition year_of_era (doe : Z) : Z :=
  (doe - doe / 1460 + doe / 36524 - doe / 146096) / 365.

(** The date of the day [doy] of a year that starts in March: the month
    (1..12) and the day of the month. *)
Definition month_day (doy : Z) : Z * Z :=
  let mp := (5 * doy + 2) / 153 in
  (if mp <? 10 then mp + 3 else mp - 9, doy - (153 * mp + 2) / 5 + 1).

(** The date of the day [doe] of an era (0 is March 1 of its first year):
    the year within the era counted from January, the month and the day. *)
Definition civil_of_doe (doe : Z) : Z * Z * Z :=
  let yoe := year_of_era doe in
  let '(m, d) := month_day (doe - days_before_year yoe) in
  (yoe + (if m <=? 2 then 1 else 0), m, d).

(** The day of the era of a date whose year, counted from March, is the
    year [yoe] of the era. *)
Definition doe_of_civil (yoe m d : Z) : Z :=
  let doy := (153 * (if 2 <? m then m - 3 else m + 9) + 2) / 5 + d - 1 in
  days_before_year yoe + doy.

(** Year, month and day of a day number (0 is 1970-01-01), in the
    proleptic Gregorian calendar. *)
Definition civil_from_days (z : Z) : Z * Z * Z :=
  let z := z + 719468 in
  let '(y, m, d) := civil_of_doe (z mod 146097) in
  (y + z / 146097 * 400, m, d).

(** The day number of a date. *)
Definition days_from_civil (y m d : Z) : Z :=
  let y := if m <=? 2 then y - 1 else y in
  y / 400 * 146097 + doe_of_civil (y mod 400) m d - 719468.

Definition pad2 (n : Z) (rest : string) : string :=
  String (digit_char (n / 10)) (String (digit_char (n mod 10)) rest).
Definition pad3 (n : Z) (rest : string) : string :=
  String (digit_char (n / 100)) (pad2 (n mod 100) rest).
Definition pad4 (n : Z) (rest : string) : string :=
  pad2 (n / 100) (pad2 (n mod 100) rest).
Definition pad6 (n : Z) (rest : string) : string :=
  pad2 (n / 10000) (pad4 (n mod 10000) rest).

(** Four digits for the years 0 to 9999, a sign and six digits otherwise. *)
Definition year_string (y : Z) (rest : string) : string :=
  if (0 <=? y) && (y <=? 9999) then pad4 y rest
  else String (if y <? 0 then "-"%char else "+"%char) (pad6 (Z.abs y) rest).

(** [new Date(t).toISOString()]: [YYYY-MM-DDTHH:mm:ss.sssZ]. *)
Definition toISOString (t : Z) : string :=
  let ms := t mod ms_per_day in
  let '(y, m, d) := civil_from_days (t / ms_per_day) in
  year_string y (String "-" (pad2 m (String "-" (pad2 d (String "T"
    (pad2 (ms / 3600000) (String ":" (pad2 (ms / 60000 mod 60) (String ":"
    (pad2 (ms / 1000 mod 60) (String "." (pad3 (ms mod 1000) "Z")))))))))))).

(** Reading back: exactly [n] digits, then the rest. *)
Fixpoint read_digits (n : nat) (acc : Z) (s : string) : option (Z * string) :=
  match n with
  | O => Some (acc, s)
  | S n' =>
      match s with
      | String c s' => d ← digit_value c; read_digits n' (10 * acc + d) s'
      | EmptyString => None
      end
  end.

(** The sign of an expanded year, with the number of digits that follow. *)
Definition read_sign (s : string) : Z * nat * string :=
  match s with
  | String "+" r => (1, 6%nat, r)
  | String "-" r => (-1, 6%nat, r)
  | _ => (1, 4%nat, s)
  end.

(** [Date.parse] on the format [toISOString] writes, in UTC and with every
    field present: the time value, or [None] where the text is not of that
    format, a field is out of its range or the date is out of the range of
    time values. *)
Definition parse_iso_utc (s : string) : option Z :=
  let '(sign, width, s) := read_sign s in
  '(y, s) ← read_digits width 0 s;
  s ← Str.expect "-" s; '(m, s) ← read_digits 2 0 s;
  s ← Str.expect "-" s; '(d, s) ← read_digits 2 0 s;
  s ← Str.expect "T" s; '(hh, s) ← read_digits 2 0 s;
  s ← Str.expect ":" s; '(mm, s) ← read_digits 2 0 s;
  s ← Str.expect ":" s; '(ss, s) ← read_digits 2 0 s;
  s ← Str.expect "." s; '(ms, s) ← read_digits 3 0 s;
  s ← Str.expect "Z" s;
  let y := sign * y in
  let t := days_from_civil y m d * ms_per_day
           + hh * 3600000 + mm * 60000 + ss * 1000 + ms in
  if decide (s = "" ∧ ¬ (sign = -1 ∧ y = 0) ∧
             1 ≤ m ≤ 12 ∧ 1 ≤ d ≤ days_in_month y m ∧
             hh ≤ 23 ∧ mm ≤ 59 ∧ ss ≤ 59 ∧ - max_time ≤ t ≤ max_time)
  then Some t else None.

(** [Date.parse(s)]; [None] is [NaN].  A string of another format is read
    as the engine pleases. *)
Definition parse `{Runtime} (s : string) : option Z :=
  match parse_iso_utc s with
  | Some t => Some t
  | None => Date_parse_other s
  end.

End Date.

(** ** What D1 computes for the statements of the source *)

Module SQL.

Definition is_space (c : ascii) : bool :=
  bool_decide (c ∈ [" "; "009"; "010"; "011"; "012"; "013"]%char).

Fixpoint skip_spaces (s : string) : string :=
  match s with
  | String c s' => if is_space c then skip_spaces s' else s
  | EmptyString => s
  end.

(** The value of the longest prefix of digits. *)
Fixpoint digits_value (acc : Z) (s : string) : Z :=
  match s with
  | String c s' =>
      match digit_value c with
      | Some d => digits_value (10 * acc + d) s'
      | None => acc
      end
  | EmptyString => acc
  end.

Definition clamp_int64 (z : Z) : Z := Z.max (- 2 ^ 63) (Z.min (2 ^ 63 - 1) z).

(** [CAST(text AS INTEGER)]: blanks are skipped, then the longest prefix
    that reads as an integer counts, [0] if there is none; a value out of
    the range of 64-bit integers is the nearest bound. *)
Definition cast_integer (s : string) : Z :=
  match skip_spaces s with
  | String "-" r => clamp_int64 (- digits_value 0 r)
  | String "+" r => clamp_int64 (digits_value 0 r)
  | r => clamp_int64 (digits_value 0 r)
  end.

(** [MAX(..)] over the rows: [NULL] on no row. *)
Definition max_of (l : list Z) : option Z :=
  match l with
  | [] => None
  | x :: l' => Some (foldr Z.max x l')
  end.

(** [SELECT MAX(CAST(id AS INTEGER)) FROM chats]. *)
Definition max_id (t : gmap string ChatRow) : option Z :=
  max_of (cast_integer <$> (map_to_list t).*1).

(** [COALESCE(new, old)]. *)
Definition coalesce {A} (new old : option A) : option A :=
  match new with
  | Some _ => new
  | None => old
  end.

(** [u] is the [urlId] of a row other than [id]. *)
Definition urlId_taken (t : gmap string ChatRow) (id u : string) : Prop :=
  map_Exists (λ j row, j ≠ id ∧ chat_urlId row = Some u) t.

(** The row [INSERT .. ON CONFLICT (id) DO UPDATE SET ..] leaves under
    [id]: the values bound, where a row exists with [urlId], [description]
    and [metadata] coalesced with those it holds. *)
Definition upserted_row (old : option ChatRow)
    (urlId : option string) (messages : string) (description : option string)
    (timestamp : string) (metadata : option string) : ChatRow :=
  match old with
  | None =>
      {| chat_urlId := urlId; chat_messages := messages;
         chat_description := description; chat_timestamp := timestamp;
         chat_metadata := metadata |}
  | Some old =>
      {| chat_urlId := coalesce urlId (chat_urlId old);
         chat_messages := messages;
         chat_description := coalesce description (chat_description old);
         chat_timestamp := timestamp;
         chat_metadata := coalesce metadata (chat_metadata old) |}
  end.

(** The upsert: it fails when it would give two rows the same [urlId]
    ([urlId TEXT UNIQUE]; [NULL]s do not clash). *)
Definition upsert_chat (id : string)
    (urlId : option string) (messages : string) (description : option string)
    (timestamp : string) (metadata : option string)
    (t : gmap string ChatRow) : Result (gmap string ChatRow) :=
  let row := upserted_row (t !! id) urlId messages description timestamp metadata in
  match chat_urlId row with
  | Some u =>
      if decide (urlId_taken t id u)
      then Throw (ConstraintViolation "UNIQUE constraint failed: chats.urlId")
      else Ok (<[id := row]> t)
  | None => Ok (<[id := row]> t)
  end.

(** [SELECT * FROM chats WHERE urlId = ?]: the rows, with their ids. *)
Definition chats_with_urlId (t : gmap string ChatRow) (u : string)
  : list (string * ChatRow) :=
  filter (λ r, chat_urlId r.2 = Some u) (map_to_list t).

(** [SELECT urlId FROM chats WHERE urlId IS NOT NULL]. *)
Definition urlIds (t : gmap string ChatRow) : list string :=
  omap chat_urlId (map_to_list t).*2.

(** [INSERT INTO files ..]: the id must be new ([PRIMARY KEY]) and the
    chat, if one is given, must exist ([FOREIGN KEY]). *)
Definition insert_file (id : string) (row : FileRow)
    (chats : gmap string ChatRow) (t : gmap string FileRow)
  : Result (gmap string FileRow) :=
  if decide (is_Some (t !! id))
  then Throw (ConstraintViolation "UNIQUE constraint failed: files.id")
  else match file_chatId row with
       | Some c =>
           if decide (is_Some (chats !! c)) then Ok (<[id := row]> t)
           else Throw (ConstraintViolation "FOREIGN KEY constraint failed")
       | None => Ok (<[id := row]> t)
       end.

End SQL.

(** One statement run against D1: [compute] is what it does to the tables
    and returns, when D1 accepts the call. *)
Definition d1 {A} (st : Statement) (compute : World → Result A * World) : M A :=
  backend (D1 st) compute.

(** A JavaScript value used as a condition: [null], [undefined] and the
    empty string are false. *)
Definition truthy (s : option string) : bool :=
  match s with
  | Some s => negb (bool_decide (s = ""))
  | None => false
  end.

(** [s || null]. *)
Definition or_null (s : option string) : option string :=
  if truthy s then s else None.

(** ** The chat store (cloudflare-db.ts) *)

Module CloudflareDB.
Section functions.
Context `{Runtime}.

Record ChatHistoryItem := {
  item_id : string;
  item_urlId : option string;
  item_messages : list Message;
  item_description : option string;
  item_timestamp : string;
  item_metadata : option IChatMetadata;
}.

(** The object literal built from a row: [messages] is parsed first, then
    [metadata] if the column holds a non-empty string. *)
Definition item_of_row (id : string) (row : ChatRow) : M ChatHistoryItem :=
  messages ← parse_json (chat_messages row);
  metadata ← (if truthy (chat_metadata row)
              then Some <$> parse_json (default "" (chat_metadata row))
              else mret None);
  mret {| item_id := id; item_urlId := chat_urlId row;
          item_messages := messages;
          item_description := chat_description row;
          item_timestamp := chat_timestamp row;
          item_metadata := metadata |}.

Definition setMessages (id : string) (messages : list Message)
    (urlId description timestamp : option string)
    (metadata : option IChatMetadata) : M () :=
  logged (
    (if truthy timestamp && bool_decide (Date.parse (default "" timestamp) = None)
     then throw (JsError "Invalid timestamp") else mret ());;
    finalTimestamp ← match timestamp with
                     | Some ts => mret ts
                     | None => Date.toISOString <$> Date_now
                     end;
    let metadataStr := JSON_stringify <$> metadata in
    let messagesStr := JSON_stringify messages in
    d1 (UpsertChat id) (λ w,
      match SQL.upsert_chat id urlId messagesStr description finalTimestamp
              metadataStr (chats w) with
      | Ok t => (Ok (), set_chats t w)
      | Throw e => (Throw e, w)
      end)).

Definition getMessagesByUrlId (urlId : string) : M (option ChatHistoryItem) :=
  logged (
    results ← d1 (SelectChatByUrlId urlId) (λ w,
      (Ok (SQL.chats_with_urlId (chats w) urlId), w));
    match results with
    | [] => mret None
    | (id, row) :: _ => Some <$> item_of_row id row
    end).

Definition getMessagesById (id : string) : M (option ChatHistoryItem) :=
  logged (
    results ← d1 (SelectChatById id) (λ w, (Ok (chats w !! id), w));
    match results with
    | None => mret None
    | Some row => Some <$> item_of_row id row
    end).

Definition getMessages (id : string) : M (option ChatHistoryItem) :=
  logged (
    byId ← getMessagesById id;
    match byId with
    | Some item => mret (Some item)
    | None => getMessagesByUrlId id
    end).

(** [results[0]?.maxId || 0], then [String(+highestId + 1)]: D1 hands the
    64-bit maximum over as a number. *)
Definition getNextId : M string :=
  logged (
    maxId ← d1 SelectMaxId (λ w, (Ok (SQL.max_id (chats w)), w));
    let highestId := match Number.round53 <$> maxId with
                     | Some n => if n =? 0 then 0 else n
                     | None => 0
                     end in
    mret (Number.toString (Number.add highestId 1))).

Definition getUrlIds : M (list string) :=
  logged (d1 SelectUrlIds (λ w, (Ok (SQL.urlIds (chats w)), w))).

Definition getUrlId (id : string) : M string :=
  logged (
    idList ← getUrlIds;
    mret (getUrlId_pure idList id)).

Definition createChatFromMessages (description : string)
    (messages : list Message) (metadata : option IChatMetadata) : M string :=
  logged (
    id ← getNextId;
    urlId ← getUrlId id;
    setMessages id messages (Some urlId) (Some description) None metadata;;
    mret id).

(** [messages.findIndex(msg => msg.id === messageId)]; [None] is [-1]. *)
Definition findIndex (messageId : string) (messages : list Message) : option nat :=
  fst <$> list_find (λ msg, Message_id msg = messageId) messages.

Definition forkChat (chatId messageId : string) : M string :=
  logged (
    chat ← getMessages chatId;
    match chat with
    | None => throw (JsError "Chat not found")
    | Some chat =>
        match findIndex messageId (item_messages chat) with
        | None => throw (JsError "Message not found")
        | Some messageIndex =>
            let messages := take (S messageIndex) (item_messages chat) in
            createChatFromMessages
              (if truthy (item_description chat)
               then default "" (item_description chat) +:+ " (fork)"
               else "Forked chat")
              messages None
        end
    end).

Definition duplicateChat (id : string) : M string :=
  logged (
    chat ← getMessages id;
    match chat with
    | None => throw (JsError "Chat not found")
    | Some chat =>
        createChatFromMessages
          (if truthy (item_description chat)
           then default "" (item_description chat) +:+ " (copy)"
           else "Duplicated chat")
          (item_messages chat) (item_metadata chat)
    end).

End functions.
End CloudflareDB.

(** ** The file manager (cloudflare-file-manager.ts) *)

Record FileMetadata := {
  meta_id : string;
  meta_chatId : option string;
  meta_path : string;
  meta_contentType : option string;
  meta_size : Z;
  meta_timestamp : string;
  meta_metadata : option (gmap string string);
}.

(** [fileData.byteLength], or the length of the UTF-8 encoding of a string. *)
Definition byte_size (fileData : FileData) : Z :=
  match fileData with
  | DataString units => Z.of_nat (length (TextEncoder_encode units))
  | DataArrayBuffer bytes => Z.of_nat (length bytes)
  | DataUint8Array bytes => Z.of_nat (length bytes)
  end.

Module CloudflareFileManager.
Section methods.
Context `{Runtime} (storage : CloudflareStorage).

(** [{...metadata, path, contentType, chatId}]. *)
Definition object_metadata (metadata : option (gmap string string))
    (path : string) (contentType chatId : option string)
  : gmap string (option string) :=
  <["chatId" := chatId]> (<["contentType" := contentType]>
    (<["path" := Some path]> (Some <$> default ∅ metadata))).

Definition storeFile (fileData : FileData) (path : string)
    (chatId contentType : option string)
    (metadata : option (gmap string string)) : M string :=
  logged (
    id ← randomUUID;
    CloudflareStorage.storeFile storage id fileData
      (Some (object_metadata metadata path contentType chatId));;
    let size := byte_size fileData in
    timestamp ← Date.toISOString <$> Date_now;
    let metadataStr := JSON_stringify <$> metadata in
    d1 (InsertFile id) (λ w,
      match SQL.insert_file id
              {| file_chatId := or_null chatId; file_path := path;
                 file_contentType := or_null contentType; file_size := size;
                 file_timestamp := timestamp; file_metadata := metadataStr |}
              (chats w) (files w) with
      | Ok t => (Ok (), set_files t w)
      | Throw e => (Throw e, w)
      end);;
    mret id).

Definition getFile (id : string) : M (option (list Z)) :=
  logged (CloudflareStorage.getFile storage id).

Definition getFileAsText (id : string) : M (option string) :=
  logged (CloudflareStorage.getFileAsText storage id).

Definition deleteFile (id : string) : M () :=
  logged (
    CloudflareStorage.deleteFile storage id;;
    d1 (DeleteFile id) (λ w, (Ok (), set_files (delete id (files w)) w))).

Definition getFileMetadata (id : string) : M (option FileMetadata) :=
  logged (
    results ← d1 (SelectFile id) (λ w, (Ok (files w !! id), w));
    match results with
    | None => mret None
    | Some row =>
        metadata ← (if truthy (file_metadata row)
                    then Some <$> parse_json (default "" (file_metadata row))
                    else mret None);
        mret (Some {| meta_id := id; meta_chatId := file_chatId row;
                      meta_path := file_path row;
                      meta_contentType := file_contentType row;
                      meta_size := file_size row;
                      meta_timestamp := file_timestamp row;
                      meta_metadata := metadata |})
    end).

End methods.
End CloudflareFileManager.

(** ** A runtime to run the examples on

    Messages with an id, a role and a content, and JSON for flat objects of
    strings and arrays of them, written and read the way [JSON.stringify]
    and [JSON.parse] do for strings without control characters. *)

Module Reference.

Definition quote : ascii := "034"%char.
Definition backslash : ascii := "092"%char.

Fixpoint escape (s : string) : string :=
  match s with
  | EmptyString => EmptyString
  | String c s' =>
      if decide (c = quote ∨ c = backslash)
      then String backslash (String c (escape s'))
      else String c (escape s')
  end.

Definition print_string (s : string) : string :=
  String quote (escape s +:+ String quote "").

Fixpoint join (sep : string) (l : list string) : string :=
  match l with
  | [] => ""
  | [x] => x
  | x :: l' => x +:+ sep +:+ join sep l'
  end.

Definition print_object (fields : list (string * string)) : string :=
  "{" +:+ join "," ((λ kv, print_string kv.1 +:+ ":" +:+ print_string kv.2)
                      <$> fields) +:+ "}".

Definition print_array (objects : list (list (string * string))) : string :=
  "[" +:+ join "," (print_object <$> objects) +:+ "]".

(** The body of a string literal, up to its closing quote, and the rest. *)
Fixpoint read_string_body (s : string) : option (string * string) :=
  match s with
  | EmptyString => None
  | String c s' =>
      if decide (c = quote) then Some ("", s')
      else if decide (c = backslash) then
        match s' with
        | String c' s'' =>
            '(body, rest) ← read_string_body s''; Some (String c' body, rest)
        | EmptyString => None
        end
      else '(body, rest) ← read_string_body s'; Some (String c body, rest)
  end.

Definition read_string (s : string) : option (string * string) :=
  s ← Str.expect quote s; read_string_body s.

Definition read_field (s : string) : option ((string * string) * string) :=
  '(k, s) ← read_string s;
  s ← Str.expect ":" s;
  '(v, s) ← read_string s;
  Some ((k, v), s).

(** The fields of an object after its opening brace, up to the closing one. *)
Fixpoint read_fields (fuel : nat) (s : string)
  : option (list (string * string) * string) :=
  match fuel with
  | O => None
  | S fuel' =>
      '(kv, s) ← read_field s;
      match s with
      | String "," s' =>
          '(rest, s'') ← read_fields fuel' s'; Some (kv :: rest, s'')
      | String "}" s' => Some ([kv], s')
      | _ => None
      end
  end.

Definition read_object (s : string) : option (list (string * string) * string) :=
  s ← Str.expect "{" s;
  match s with
  | String "}" s' => Some ([], s')
  | _ => read_fields (String.length s) s
  end.

Fixpoint read_objects (fuel : nat) (s : string)
  : option (list (list (string * string)) * string) :=
  match fuel with
  | O => None
  | S fuel' =>
      '(o, s) ← read_object s;
      match s with
      | String "," s' =>
          '(rest, s'') ← read_objects fuel' s'; Some (o :: rest, s'')
      | String "]" s' => Some ([o], s')
      | _ => None
      end
  end.

Definition read_array (s : string)
  : option (list (list (string * string)) * string) :=
  s ← Str.expect "[" s;
  match s with
  | String "]" s' => Some ([], s')
  | _ => read_objects (String.length s) s
  end.

Definition parse_object (s : string) : option (list (string * string)) :=
  '(o, rest) ← read_object s; if decide (rest = "") then Some o else None.

Definition parse_array (s : string) : option (list (list (string * string))) :=
  '(a, rest) ← read_array s; if decide (rest = "") then Some a else None.

(** The value of a field; a later field of the same name wins. *)
Definition field (k : string) (o : list (string * string)) : option string :=
  (list_to_map (reverse o) : gmap string string) !! k.

Record Msg := { msg_id : string; msg_role : string; msg_content : string }.

Definition object_of_msg (m : Msg) : list (string * string) :=
  [("id", msg_id m); ("role", msg_role m); ("content", msg_content m)].

Definition msg_of_object (o : list (string * string)) : option Msg :=
  id ← field "id" o; role ← field "role" o; content ← field "content" o;
  Some {| msg_id := id; msg_role := role; msg_content := content |}.

Record ChatMetadata := {
  gitUrl : string;
  gitBranch : option string;
  netlifySiteId : option string;
}.

Definition object_of_metadata (m : ChatMetadata) : list (string * string) :=
  [("gitUrl", gitUrl m)]
  ++ from_option (λ b, [("gitBranch", b)]) [] (gitBranch m)
  ++ from_option (λ s, [("netlifySiteId", s)]) [] (netlifySiteId m).

Definition metadata_of_object (o : list (string * string)) : option ChatMetadata :=
  url ← field "gitUrl" o;
  Some {| gitUrl := url; gitBranch := field "gitBranch" o;
          netlifySiteId := field "netlifySiteId" o |}.

Definition json_msgs : JSON (list Msg) := {|
  JSON_stringify msgs := print_array (object_of_msg <$> msgs);
  JSON_parse s := a ← parse_array s; mapM msg_of_object a;
|}.

Definition json_metadata : JSON ChatMetadata := {|
  JSON_stringify m := print_object (object_of_metadata m);
  JSON_parse s := o ← parse_object s; metadata_of_object o;
|}.

Definition json_record : JSON (gmap string string) := {|
  JSON_stringify m := print_object (map_to_list m);
  JSON_parse s := o ← parse_object s; Some (list_to_map (reverse o));
|}.

(** Bytes below 128 read as the characters they are. *)
Definition decode_ascii (bytes : list Z) : string :=
  String.string_of_list_ascii ((λ b, ascii_of_nat (Z.to_nat b)) <$> bytes).

Definition runtime : Runtime := {|
  Message := Msg;
  Message_id := msg_id;
  IChatMetadata := ChatMetadata;
  JSON_messages := json_msgs;
  JSON_chat_metadata := json_metadata;
  JSON_record := json_record;
  Date_parse_other := λ _, None;
  TextDecoder_decode := decode_ascii;
|}.

(** A world with empty tables and an empty bucket, in which no backend
    call is rejected; the clock starts at [t0] and gains a second at each
    reading; the ids drawn are ["file-0"], ["file-1"], ... *)
Definition fresh (t0 : Z) : World := {|
  chats := ∅; files := ∅; bucket := ∅; calls := [];
  dates := 0; uuids := 0;
  rejects := λ _, None;
  clock := λ n, t0 + 1000 * Z.of_nat n;
  entropy := λ n, "file-" +:+ pretty n;
|}.

(** A chat without messages. *)
Definition empty_chat (urlId : option string) : ChatRow := {|
  chat_urlId := urlId; chat_messages := "[]"; chat_description := None;
  chat_timestamp := "1970-01-01T00:00:00.000Z"; chat_metadata := None;
|}.

(** A world as [fresh 0] whose [chats] table holds a chat without messages
    for each of the ids, with the url id given. *)
Definition with_chats (rows : list (string * option string)) : World :=
  set_chats (list_to_map (prod_map id empty_chat <$> rows)) (fresh 0).

(** The same world, but its [n]-th backend call from now is rejected
    with [e]. *)
Definition rejecting (n : nat) (e : Error) (w : World) : World := {|
  chats := chats w; files := files w; bucket := bucket w; calls := calls w;
  dates := dates w; uuids := uuids w;
  rejects := λ i, if decide (i = length (calls w) + n)%nat then Some e
                  else rejects w i;
  clock := clock w; entropy := entropy w;
|}.

End Reference.

(** ** Who swallows a backend failure *)

(** The result alone. *)
Definition void {A} (m : M A) : M () := (λ _, ()) <$> m.

(** The operations of the object store, with their arguments. *)
Inductive StorageOp :=
| OpStoreFile (key : string) (data : FileData)
    (metadata : option (gmap string (option string)))
| OpGetFile (key : string)
| OpGetFileAsText (key : string)
| OpDeleteFile (key : string)
| OpListFiles (prefix : option string) (limit : option nat)
| OpGetFileMetadata (key : string)
| OpUpdateFileMetadata (key : string) (metadata : gmap string (option string))
| OpFileExists (key : string).

Definition run_op `{Runtime} (this : CloudflareStorage) (op : StorageOp) : M () :=
  match op with
  | OpStoreFile key data metadata =>
      void (CloudflareStorage.storeFile this key data metadata)
  | OpGetFile key => void (CloudflareStorage.getFile this key)
  | OpGetFileAsText key => void (CloudflareStorage.getFileAsText this key)
  | OpDeleteFile key => CloudflareStorage.deleteFile this key
  | OpListFiles prefix limit => void (CloudflareStorage.listFiles this prefix limit)
  | OpGetFileMetadata key => void (CloudflareStorage.getFileMetadata this key)
  | OpUpdateFileMetadata key metadata =>
      CloudflareStorage.updateFileMetadata this key metadata
  | OpFileExists key => void (CloudflareStorage.fileExists this key)
  end.

(** A backend call made between [w] and [w'] was rejected with [e]. *)
Definition rejected_between (w w' : World) (e : Error) : Prop :=
  ∃ i, (length (calls w) ≤ i < length (calls w'))%nat ∧ rejects w i = Some e.

(** [m] throws the error of any backend call of its that is rejected. *)
Definition propagates {A} (m : M A) : Prop :=
  ∀ w e, rejected_between w (m w).2 e → (m w).1 = Throw e.

(** ** Notions the properties are stated with *)

(** Whether a string starts with a slash. *)
Definition starts_with_slash (s : string) : bool :=
  match s with
  | String c _ => bool_decide (c = "/"%char)
  | EmptyString => false
  end.

(** A computation that makes backend calls only through [backend]: the
    log grows, the oracle stays, and a rejected call is what it throws. *)
Definition faithful {A} (m : M A) : Prop :=
  ∀ w, (∃ l, calls (m w).2 = calls w ++ l) ∧
       rejects (m w).2 = rejects w ∧
       ∀ e, rejected_between w (m w).2 e → (m w).1 = Throw e.

(** A computation that makes no backend call. *)
Definition quiet {A} (m : M A) : Prop :=
  ∀ w, calls (m w).2 = calls w ∧ rejects (m w).2 = rejects w.

(** The timestamp [setMessages] stores: the caller's, or the clock's. *)
Definition final_timestamp (timestamp : option string) (w : World) : string :=
  match timestamp with
  | Some ts => ts
  | None => Date.toISOString (clock w (dates w))
  end.

Section readings.
Context `{Runtime}.

(** What [getMessagesById] and [getMessages] read of a row. *)
Definition read_metadata (column : option string) : option (option IChatMetadata) :=
  if truthy column then Some <$> JSON_parse (default "" column) else Some None.

End readings.

(** What [getNextId] computes when D1 answers. *)
Definition highestId (t : gmap string ChatRow) : Z :=
  match Number.round53 <$> SQL.max_id t with
  | Some n => if n =? 0 then 0 else n
  | None => 0
  end.

(** The last day of the year [yoe] of an era. *)
Definition last_day_of_year (yoe : Z) : Z :=
  if yoe =? 399 then 146096 else Date.days_before_year (yoe + 1) - 1.

(** One year of an era: its first and last day are in it, and it has 365
    days, or 366 when the year that starts in its January is a leap year. *)
Definition era_year_ok (yoe : Z) : bool :=
  (Date.year_of_era (Date.days_before_year yoe) =? yoe)
  && (Date.year_of_era (last_day_of_year yoe) =? yoe)
  && (last_day_of_year yoe - Date.days_before_year yoe
      =? (if Date.is_leap (yoe + 1) then 365 else 364)).

(** One day of a year that starts in March: its month and day are a date,
    of February 29 only in a leap year, that leads back to the day. *)
Definition year_day_ok (doy : Z) : bool :=
  let '(m, d) := Date.month_day doy in
  (1 <=? m) && (m <=? 12) && (1 <=? d)
  && (d <=? Date.month_days (doy =? 365) m)
  && ((153 * (if 2 <? m then m - 3 else m + 9) + 2) / 5 + d - 1 =? doy).

(** Two messages for the examples. *)
Definition hello : Reference.Msg :=
  {| Reference.msg_id := "m1"; Reference.msg_role := "user";
     Reference.msg_content := "hi" |}.
Definition reply : Reference.Msg :=
  {| Reference.msg_id := "m2"; Reference.msg_role := "assistant";
     Reference.msg_content := "hello" |}.


(** ** Further notions: the object store and the file manager at work *)

(** The object R2 holds after [put(key, data, {customMetadata})]. *)
Definition stored_object (data : FileData)
    (metadata : option (gmap string (option string))) : R2Object :=
  {| obj_body := bytes_of data; obj_customMetadata := metadata |}.

(** The next [n] backend calls are accepted. *)
Definition accepts (n : nat) (w : World) : Prop :=
  ∀ i, (i < n)%nat → rejects w (length (calls w) + i) = None.
(** * Properties *)

Section getUrlId_facts.
Implicit Types (idList : list string) (id : string) (i j k fuel : nat).

Lemma suffixed_inj id : Inj (=) (=) (suffixed id).
Proof.
  intros i j H. unfold suffixed in H.
  apply (inj (String.app id)) in H. apply (inj (String.app "-")) in H.
  by apply (inj pretty) in H.
Qed.

(** The loop stops at the first free suffix at or after [i], if the fuel
    reaches it. *)
Lemma getUrlId_loop_first_free fuel idList id i k :
  (i ≤ k < i + fuel)%nat →
  suffixed id k ∉ idList →
  (∀ j, (i ≤ j < k)%nat → suffixed id j ∈ idList) →
  getUrlId_loop fuel idList id i = Some (suffixed id k).
Proof.
  revert i. induction fuel as [|fuel IH]; intros i Hk Hfree Hbelow; [lia|].
  simpl. case_bool_decide as Hi.
  - destruct (decide (i = k)) as [->|Hne]; [done|].
    apply IH; [lia|done|]. intros j Hj. apply Hbelow. lia.
  - destruct (decide (i = k)) as [->|Hne]; [done|].
    exfalso. apply Hi, Hbelow. lia.
Qed.

(** Pigeonhole: among [length idList + 1] consecutive suffixes one is free. *)
Lemma free_suffix_exists idList id i :
  ∃ k, (i ≤ k < i + S (length idList))%nat ∧ suffixed id k ∉ idList.
Proof.
  set (cands := suffixed id <$> seq i (S (length idList))).
  destruct (decide (Forall (λ s, s ∈ idList) cands)) as [Hall|Hnot].
  - exfalso.
    assert (NoDup cands) as Hnd.
    { apply (NoDup_fmap_2 _), NoDup_seq. }
    assert (cands ⊆+ idList) as Hsub.
    { apply NoDup_submseteq; [done|]. by apply Forall_forall. }
    apply submseteq_length in Hsub.
    unfold cands in Hsub. rewrite length_fmap, length_seq in Hsub. lia.
  - apply not_Forall_Exists in Hnot; [|apply _].
    apply Exists_exists in Hnot as (s & Hs & Hfree).
    apply list_elem_of_fmap in Hs as (k & -> & Hk).
    apply elem_of_seq in Hk. exists k. split; [lia|done].
Qed.

(** The least free suffix in a range that holds one. *)
Lemma least_free_suffix idList id i n :
  (∃ k, (i ≤ k < i + n)%nat ∧ suffixed id k ∉ idList) →
  ∃ k, (i ≤ k < i + n)%nat ∧ (suffixed id k ∉ idList) ∧
       (∀ j, (i ≤ j < k)%nat → suffixed id j ∈ idList).
Proof.
  revert i. induction n as [|n IH]; intros i (k & Hk & Hfree); [lia|].
  destruct (decide (suffixed id i ∈ idList)) as [Hi|Hi].
  - destruct (IH (S i)) as (k' & Hk' & Hfree' & Hbelow).
    { exists k. split; [|done].
      destruct (decide (k = i)) as [->|]; [done|lia]. }
    exists k'. split; [lia|]. split; [done|].
    intros j Hj. destruct (decide (j = i)) as [->|]; [done|].
    apply Hbelow. lia.
  - exists i. split; [lia|]. split; [done|]. intros j Hj. lia.
Qed.

Lemma getUrlId_fuel_enough idList id :
  is_Some (getUrlId_fuel (S (length idList)) idList id).
Proof.
  unfold getUrlId_fuel. case_bool_decide; [|by eexists].
  destruct (least_free_suffix idList id 2 (S (length idList)))
    as (k & Hk & Hfree & Hbelow); [apply free_suffix_exists|].
  rewrite (getUrlId_loop_first_free _ _ _ _ k); [by eexists|lia|done|done].
Qed.

(** More fuel does not change an answer: the bound on the number of tests
    is no part of the result. *)
Lemma getUrlId_loop_fuel_mono fuel fuel' idList id i r :
  (fuel ≤ fuel')%nat →
  getUrlId_loop fuel idList id i = Some r →
  getUrlId_loop fuel' idList id i = Some r.
Proof.
  revert fuel' i. induction fuel as [|fuel IH]; intros fuel' i Hle; [done|].
  destruct fuel' as [|fuel']; [lia|]. simpl.
  case_bool_decide; [|done]. apply IH. lia.
Qed.

End getUrlId_facts.

Lemma logged_id {A} (body : M A) w : logged body w = body w.
Proof. unfold logged, try_catch, throw. by destruct (body w) as [[a|e] w']. Qed.

(** ** Running a computation by hand *)

Lemma next_reject_log c w :
  next_reject (log_call c w) = rejects w (S (length (calls w))).
Proof.
  unfold next_reject, log_call; simpl. rewrite length_app; simpl.
  f_equal. lia.
Qed.

(** Linear arithmetic with quotients and remainders by constants. *)
Ltac div_lia := Z.to_euclidean_division_equations; lia.

(** A closed decidable proposition that evaluates to true. *)
Ltac by_decide :=
  match goal with |- ?P => apply (bool_decide_unpack P); vm_compute; exact I end.

Ltac unfold_M :=
  unfold logged, try_catch, throw, d1, backend, Date_now, randomUUID,
    mbind, M_bind, mret, M_ret, fmap, M_fmap in *.

(** ** The two writes of the file manager *)

Section file_manager.
Context `{Runtime} (storage : CloudflareStorage).

(** [storeFile], case by case: what it returns and what it leaves. *)
Lemma storeFile_run fileData path chatId contentType metadata w :
  let id := entropy w (uuids w) in
  let key := CloudflareStorage.getFullKey storage id in
  let blob := {| obj_body := bytes_of fileData;
                 obj_customMetadata :=
                   Some (CloudflareFileManager.object_metadata
                           metadata path contentType chatId) |} in
  let row := {| file_chatId := or_null chatId; file_path := path;
                file_contentType := or_null contentType;
                file_size := byte_size fileData;
                file_timestamp := Date.toISOString (clock w (dates w));
                file_metadata := JSON_stringify <$> metadata |} in
  let '(r, w') := CloudflareFileManager.storeFile storage
                    fileData path chatId contentType metadata w in
  match next_reject w with
  | Some e =>
      r = Throw e ∧ calls w' = calls w ++ [R2Put key] ∧
      bucket w' = bucket w ∧ files w' = files w
  | None =>
      calls w' = calls w ++ [R2Put key; D1 (InsertFile id)] ∧
      bucket w' = <[key := blob]> (bucket w) ∧
      match rejects w (S (length (calls w))) with
      | Some e => r = Throw e ∧ files w' = files w
      | None =>
          match SQL.insert_file id row (chats w) (files w) with
          | Ok t => r = Ok id ∧ files w' = t
          | Throw e => r = Throw e ∧ files w' = files w
          end
      end
  end.
Proof.
  unfold CloudflareFileManager.storeFile, CloudflareStorage.storeFile.
  unfold_M. simpl.
  change (rejects w (length (calls w))) with (next_reject w).
  destruct (next_reject w) as [e|] eqn:Hput; simpl; [done|].
  rewrite length_app; simpl.
  replace (length (calls w) + 1)%nat with (S (length (calls w))) by lia.
  destruct (rejects w (S (length (calls w)))) as [e|] eqn:Hins; simpl.
  { by rewrite <-(assoc_L (++)). }
  destruct (SQL.insert_file _ _ _ _) as [t|e] eqn:Hrow; simpl;
    by rewrite <-(assoc_L (++)).
Qed.

Lemma deleteFile_run (id : string) (w : World) :
  let key := CloudflareStorage.getFullKey storage id in
  let '(r, w') := CloudflareFileManager.deleteFile storage id w in
  match next_reject w with
  | Some e =>
      r = Throw e ∧ calls w' = calls w ++ [R2Delete key] ∧
      bucket w' = bucket w ∧ files w' = files w
  | None =>
      calls w' = calls w ++ [R2Delete key; D1 (DeleteFile id)] ∧
      bucket w' = delete key (bucket w) ∧
      match rejects w (S (length (calls w))) with
      | Some e => r = Throw e ∧ files w' = files w
      | None => r = Ok () ∧ files w' = delete id (files w)
      end
  end.
Proof.
  unfold CloudflareFileManager.deleteFile, CloudflareStorage.deleteFile.
  unfold_M. simpl.
  change (rejects w (length (calls w))) with (next_reject w).
  destruct (next_reject w) as [e|] eqn:Hdel; simpl; [done|].
  rewrite length_app; simpl.
  replace (length (calls w) + 1)%nat with (S (length (calls w))) by lia.
  destruct (rejects w (S (length (calls w)))) as [e|] eqn:Hrow; simpl;
    by rewrite <-(assoc_L (++)).
Qed.

End file_manager.

(** C1.  [FileManager.storeFile] writes the blob before it inserts the row:
    the backend calls of a run are the [put] alone or the [put] followed
    by the [INSERT].  If the [put] is rejected, the error is what
    [storeFile] throws, no [INSERT] is issued and the [files] table is as
    it was. *)
Theorem storeFile_blob_before_row `{Runtime} (storage : CloudflareStorage)
    (fileData : FileData) (path : string) (chatId contentType : option string)
    (metadata : option (gmap string string)) (w : World) :
  let id := entropy w (uuids w) in
  let key := CloudflareStorage.getFullKey storage id in
  let run := CloudflareFileManager.storeFile storage
               fileData path chatId contentType metadata w in
  (∀ e, next_reject w = Some e →
        run.1 = Throw e ∧ files run.2 = files w ∧
        calls run.2 = calls w ++ [R2Put key]) ∧
  (calls run.2 = calls w ++ [R2Put key] ∨
   calls run.2 = calls w ++ [R2Put key; D1 (InsertFile id)]).
Proof.
  intros id key run.
  pose proof (storeFile_run storage fileData path chatId contentType metadata w)
    as Hrun.
  simpl in Hrun. fold id key run in Hrun. destruct run as [r w'].
  destruct (next_reject w) as [e|].
  - destruct Hrun as (-> & Hcalls & _ & Hfiles). split.
    + by intros ? [= <-].
    + by left.
  - destruct Hrun as (Hcalls & _). split; [done|by right].
Qed.

(** The store is asked to reject the [put]: [storeFile] throws that error
    and the only call made is the [put]. *)
Lemma storeFile_blob_before_row_witness :
  let w := Reference.rejecting 0 (BackendFailure 503) (Reference.fresh 0) in
  let run := CloudflareFileManager.storeFile (H := Reference.runtime)
               {| storage_prefix := "" |} (DataString [104; 105]) "a.txt"
               None None None w in
  run.1 = Throw (BackendFailure 503) ∧ files run.2 = files w ∧
  calls run.2 = calls w ++ [R2Put "file-0"].
Proof.
  intros w run.
  exact (proj1 (storeFile_blob_before_row (H := Reference.runtime)
                  {| storage_prefix := "" |} (DataString [104; 105]) "a.txt"
                  None None None w) (BackendFailure 503) eq_refl).
Defined.



(** ** Propagation of backend failures *)

Section propagation.
Context `{Runtime}.

Lemma quiet_faithful {A} (m : M A) : quiet m → faithful m.
Proof.
  intros Hq w. destruct (Hq w) as [Hc Hr]. split; [|split; [done|]].
  - exists []. by rewrite (right_id_L [] (++)).
  - intros e (i & Hi & _). rewrite Hc in Hi. lia.
Qed.

Lemma faithful_ret {A} (a : A) : faithful (mret a).
Proof. by apply quiet_faithful. Qed.

Lemma faithful_throw {A} e : faithful (throw e : M A).
Proof. by apply quiet_faithful. Qed.

Lemma faithful_bind {A B} (m : M A) (f : A → M B) :
  faithful m → (∀ a, faithful (f a)) → faithful (m ≫= f).
Proof.
  intros Hm Hf w. destruct (Hm w) as ([l Hl] & Hr & Hprop).
  unfold mbind, M_bind. destruct (m w) as [[a|e] w1] eqn:Hmw; simpl in *.
  - destruct (Hf a w1) as ([l' Hl'] & Hr' & Hprop').
    split; [|split].
    + exists (l ++ l'). by rewrite Hl', Hl, (assoc_L (++)).
    + congruence.
    + intros e (i & Hi & He).
      destruct (decide (i < length (calls w1))%nat) as [Hlt|Hge].
      * assert (Ok a = Throw e) by (apply Hprop; exists i; split; [lia|done]).
        done.
      * apply Hprop'. exists i. split; [lia|congruence].
  - split; [by exists l|]. split; [done|].
    intros e' He'. specialize (Hprop e' He'). congruence.
Qed.

Lemma faithful_fmap {A B} (g : A → B) (m : M A) : faithful m → faithful (g <$> m).
Proof.
  intros Hm w. destruct (Hm w) as (Hl & Hr & Hprop).
  unfold fmap, M_fmap. destruct (m w) as [[a|e] w1]; simpl in *;
    (split; [done|]; split; [done|]);
    intros e' He'; specialize (Hprop e' He'); congruence.
Qed.

Lemma faithful_logged {A} (m : M A) : faithful m → faithful (logged m).
Proof. intros Hm w. rewrite logged_id. apply Hm. Qed.

Lemma faithful_backend {A} c (effect : M A) : quiet effect → faithful (backend c effect).
Proof.
  intros Hq w. unfold backend, next_reject.
  destruct (rejects w (length (calls w))) as [e|] eqn:Hrej; simpl.
  - split; [by exists [c]|]. split; [done|].
    intros e' (i & Hi & He). simpl in Hi.
    rewrite length_app in Hi; simpl in Hi.
    assert (i = length (calls w)) as -> by lia. congruence.
  - destruct (Hq (log_call c w)) as [Hc Hr]. split; [|split; [done|]].
    + exists [c]. by rewrite Hc.
    + intros e' (i & Hi & He). rewrite Hc in Hi; simpl in Hi.
      rewrite length_app in Hi; simpl in Hi.
      assert (i = length (calls w)) as -> by lia. congruence.
Qed.

Lemma faithful_propagates {A} (m : M A) : faithful m → propagates m.
Proof. intros Hm w e. apply Hm. Qed.

End propagation.

Ltac faithful_step :=
  first
    [ apply faithful_logged
    | apply faithful_bind; [|intros ?]
    | apply faithful_fmap
    | apply faithful_ret
    | apply faithful_throw
    | apply faithful_backend; intros ?; by simpl
    | progress unfold d1, void, parse_json
    | match goal with |- faithful (match ?x with _ => _ end) => destruct x end
    | match goal with |- faithful (if ?x then _ else _) => destruct x end ].

Ltac faithful := repeat faithful_step.

(** ** The object store: who rethrows and who does not *)

Section object_store.
Context `{Runtime} (this : CloudflareStorage).

Lemma fileExists_run key w :
  CloudflareStorage.fileExists this key w =
  (Ok (match next_reject w with
       | Some _ => false
       | None => bool_decide
                   (is_Some (bucket w !! CloudflareStorage.getFullKey this key))
       end),
   log_call (R2Head (CloudflareStorage.getFullKey this key)) w).
Proof.
  unfold CloudflareStorage.fileExists, try_catch, backend, mbind, M_bind,
    mret, M_ret.
  destruct (next_reject w); reflexivity.
Qed.

Lemma storeFile_faithful key data metadata :
  faithful (CloudflareStorage.storeFile this key data metadata).
Proof. unfold CloudflareStorage.storeFile. faithful. Qed.

Lemma getFile_faithful key : faithful (CloudflareStorage.getFile this key).
Proof. unfold CloudflareStorage.getFile. faithful. Qed.

Lemma getFileAsText_faithful key :
  faithful (CloudflareStorage.getFileAsText this key).
Proof. unfold CloudflareStorage.getFileAsText. faithful. Qed.

Lemma deleteFile_faithful key : faithful (CloudflareStorage.deleteFile this key).
Proof. unfold CloudflareStorage.deleteFile. faithful. Qed.

Lemma listFiles_faithful prefix limit :
  faithful (CloudflareStorage.listFiles this prefix limit).
Proof. unfold CloudflareStorage.listFiles. faithful. Qed.

Lemma getFileMetadata_faithful key :
  faithful (CloudflareStorage.getFileMetadata this key).
Proof. unfold CloudflareStorage.getFileMetadata. faithful. Qed.

Lemma updateFileMetadata_faithful key metadata :
  faithful (CloudflareStorage.updateFileMetadata this key metadata).
Proof. unfold CloudflareStorage.updateFileMetadata. faithful. Qed.

(** C9.  [fileExists] never throws: it returns [true] exactly when the
    [head] call is accepted and finds an object under the full key, and
    [false] otherwise, in particular when the call is rejected.  It is the
    only operation of the object store that does not throw the error of a
    backend call of its that is rejected. *)
Theorem fileExists_alone_swallows :
  (∀ key w, ∃ b,
     (CloudflareStorage.fileExists this key w).1 = Ok b ∧
     (∀ e, next_reject w = Some e → b = false) ∧
     (b = true ↔
      next_reject w = None ∧
      is_Some (bucket w !! CloudflareStorage.getFullKey this key))) ∧
  (∀ op, propagates (run_op this op) ↔ ∀ key, op ≠ OpFileExists key).
Proof.
  split.
  - intros key w. rewrite fileExists_run. simpl.
    destruct (next_reject w) as [e|]; eexists; (split; [done|]); split.
    + done.
    + split; [done|]. by intros [? _].
    + done.
    + rewrite bool_decide_eq_true. split; [by intros ?|by intros [_ ?]].
  - intros op. split.
    + intros Hprop key ->.
      set (w := Reference.rejecting 0 (BackendFailure 503) (Reference.fresh 0)).
      specialize (Hprop w (BackendFailure 503)).
      unfold run_op, void in Hprop. unfold fmap, M_fmap in Hprop.
      rewrite fileExists_run in Hprop. simpl in Hprop.
      enough (@Ok () () = Throw (BackendFailure 503)) as Habs
        by discriminate Habs.
      apply Hprop. exists 0%nat. split; [simpl; lia|done].
    + intros Hne. apply faithful_propagates.
      destruct op as [key data metadata|key|key|key|prefix limit|key
                     |key metadata|key];
        unfold run_op, void.
      * apply faithful_fmap, storeFile_faithful.
      * apply faithful_fmap, getFile_faithful.
      * apply faithful_fmap, getFileAsText_faithful.
      * apply deleteFile_faithful.
      * apply faithful_fmap, listFiles_faithful.
      * apply faithful_fmap, getFileMetadata_faithful.
      * apply updateFileMetadata_faithful.
      * by destruct (Hne key).
Qed.

End object_store.

(** ** Keys of the object store *)

Section keys.
Implicit Types (s p : string) (c : ascii).

Lemma collapse_slashes_head s :
  starts_with_slash (Str.collapse_slashes s) = starts_with_slash s.
Proof.
  induction s as [|c s IH]; [done|]. simpl.
  destruct (decide (c = "/"%char)) as [->|Hc].
  - destruct s as [|c' s]; [done|].
    destruct (decide (c' = "/"%char)) as [->|Hc']; [|done].
    rewrite IH. done.
  - simpl. by rewrite !bool_decide_eq_false_2.
Qed.

Lemma no_slash_run_cons c s :
  Str.no_slash_run (String c s) =
  negb (bool_decide (c = "/"%char) && starts_with_slash s) && Str.no_slash_run s.
Proof.
  destruct s as [|c' s]; simpl.
  - by rewrite andb_false_r.
  - destruct (decide (c = "/"%char)) as [->|Hc].
    + rewrite bool_decide_eq_true_2 by done.
      destruct (decide (c' = "/"%char)) as [->|Hc']; [done|].
      by rewrite bool_decide_eq_false_2.
    + by rewrite bool_decide_eq_false_2.
Qed.

(** What [replace(/\/+/g, '/')] returns has no run of slashes. *)
Lemma collapse_slashes_no_run s : Str.no_slash_run (Str.collapse_slashes s) = true.
Proof.
  induction s as [|c s IH]; [done|].
  cbn [Str.collapse_slashes].
  destruct (decide (c = "/"%char)) as [->|Hc].
  - destruct s as [|c' s]; [done|].
    destruct (decide (c' = "/"%char)) as [->|Hc']; [done|].
    rewrite no_slash_run_cons, IH, collapse_slashes_head. simpl.
    by rewrite (bool_decide_eq_false_2 (c' = "/"%char)).
  - rewrite no_slash_run_cons, IH.
    by rewrite (bool_decide_eq_false_2 (c = "/"%char)).
Qed.

Lemma remove_first_empty s : Str.remove_first "" s = s.
Proof. by destruct s. Qed.

Lemma elem_of_r2_matching (b : gmap string R2Object) p k :
  k ∈ r2_matching b p ↔ is_Some (b !! k) ∧ Str.starts_with p k = true.
Proof.
  unfold r2_matching. rewrite list_elem_of_filter, list_elem_of_fmap.
  split.
  - intros (Hp & [k' o] & -> & Hin). split; [|done].
    apply elem_of_map_to_list in Hin. by eexists.
  - intros ([o Ho] & Hp). split; [done|].
    exists (k, o). split; [done|]. by apply elem_of_map_to_list.
Qed.

(** A listing that [limit] does not cut short holds every matching key. *)
Lemma elem_of_r2_list (b : gmap string R2Object) p limit k :
  (length (r2_matching b p) ≤ limit)%nat →
  k ∈ r2_list b p limit ↔ is_Some (b !! k) ∧ Str.starts_with p k = true.
Proof.
  intros Hlen. unfold r2_list.
  rewrite take_ge by (by rewrite merge_sort_Permutation).
  by rewrite merge_sort_Permutation, elem_of_r2_matching.
Qed.

End keys.

Section listing.
Context (this : CloudflareStorage).

(** What [storeFile] then [listFiles] do when R2 accepts both calls. *)
Lemma storeFile_listFiles_run key data metadata prefix limit w :
  next_reject w = None →
  rejects w (S (length (calls w))) = None →
  let fullKey := CloudflareStorage.getFullKey this key in
  let w1 := (CloudflareStorage.storeFile this key data metadata w).2 in
  bucket w1 = <[fullKey := {| obj_body := bytes_of data;
                              obj_customMetadata := metadata |}]> (bucket w) ∧
  (CloudflareStorage.listFiles this prefix limit w1).1 =
    Ok (Str.remove_first (storage_prefix this) <$>
          r2_list (bucket w1)
            (CloudflareStorage.getFullKey this (default "" prefix))
            (default 1000%nat limit)).
Proof.
  intros Hput Hlist.
  unfold CloudflareStorage.storeFile, CloudflareStorage.listFiles.
  rewrite !logged_id. unfold backend, mbind, M_bind, mret, M_ret.
  rewrite Hput. simpl. split; [done|].
  unfold next_reject. simpl. rewrite length_app. simpl.
  replace (length (calls w) + 1)%nat with (S (length (calls w))) by lia.
  by rewrite Hlist.
Qed.

(** C8, as the code has it.  Under the empty instance prefix a key is
    stored as it is, runs of slashes included, and [listFiles] returns it
    whenever it starts with the prefix listed and [limit] does not cut the
    listing short.  Under a non-empty instance prefix the full key is the
    prefix, a slash and the key with every run of slashes collapsed to
    one. *)
Theorem listFiles_returns_key_under_empty_prefix (key : string) :
  (storage_prefix this = "" →
   CloudflareStorage.getFullKey this key = key ∧
   ∀ data metadata prefix limit w,
     next_reject w = None →
     rejects w (S (length (calls w))) = None →
     Str.starts_with (default "" prefix) key = true →
     let w1 := (CloudflareStorage.storeFile this key data metadata w).2 in
     (length (r2_matching (bucket w1) (default "" prefix))
      ≤ default 1000 limit)%nat →
     ∃ keys, (CloudflareStorage.listFiles this prefix limit w1).1 = Ok keys ∧
             key ∈ keys) ∧
  (storage_prefix this ≠ "" →
   CloudflareStorage.getFullKey this key =
     Str.collapse_slashes (storage_prefix this +:+ "/" +:+ key) ∧
   Str.no_slash_run (CloudflareStorage.getFullKey this key) = true).
Proof.
  split.
  - intros Hempty.
    assert (∀ k, CloudflareStorage.getFullKey this k = k) as Hfull.
    { intros k. unfold CloudflareStorage.getFullKey. by rewrite decide_True. }
    split; [done|].
    intros data metadata prefix limit w Hput Hlist Hstarts w1 Hlen.
    destruct (storeFile_listFiles_run key data metadata prefix limit w Hput Hlist)
      as [Hbucket Hrun].
    fold w1 in Hbucket, Hrun. rewrite !Hfull in *.
    eexists. split; [exact Hrun|].
    rewrite Hempty. apply list_elem_of_fmap. exists key.
    split; [by rewrite remove_first_empty|].
    apply elem_of_r2_list; [done|]. split; [|done].
    rewrite Hbucket, lookup_insert_eq. by eexists.
  - intros Hprefix.
    assert (CloudflareStorage.getFullKey this key =
            Str.collapse_slashes (storage_prefix this +:+ "/" +:+ key)) as ->.
    { unfold CloudflareStorage.getFullKey. by rewrite decide_False. }
    split; [done|]. apply collapse_slashes_no_run.
Qed.

End listing.

(** Under the empty prefix the key ["a//b"] is stored and listed as it is. *)
Lemma listFiles_returns_key_under_empty_prefix_witness :
  let this := {| storage_prefix := "" |} in
  let w1 := (CloudflareStorage.storeFile this "a//b" (DataString [104; 105])
               None (Reference.fresh 0)).2 in
  ∃ keys, (CloudflareStorage.listFiles this None None w1).1 = Ok keys ∧
          "a//b" ∈ keys.
Proof.
  intros this w1.
  refine (proj2 (proj1 (listFiles_returns_key_under_empty_prefix this "a//b")
                   eq_refl)
            (DataString [104; 105]) None None None (Reference.fresh 0)
            eq_refl eq_refl eq_refl _).
  vm_compute. lia.
Defined.

(** Against C8 as stated: under the instance prefix ["p"] the keys ["a//b"]
    and ["a/b"] are stored under the same full key, and what [listFiles]
    returns for it is ["/a/b"], not the key stored; under the empty prefix
    the full key of ["a//b"] keeps its run of slashes. *)
Lemma listFiles_loses_key :
  let this := {| storage_prefix := "p" |} in
  let w1 := (CloudflareStorage.storeFile this "a//b" (DataString [104; 105])
               None (Reference.fresh 0)).2 in
  (CloudflareStorage.listFiles this None None w1).1 = Ok ["/a/b"] ∧
  ("a//b" ∉ ["/a/b"]) ∧
  CloudflareStorage.getFullKey this "a//b"
    = CloudflareStorage.getFullKey this "a/b" ∧
  CloudflareStorage.getFullKey {| storage_prefix := "" |} "a//b" = "a//b" ∧
  Str.no_slash_run "a//b" = false.
Proof.
  intros this w1. split; [by vm_compute|].
  split; [|done].
  intros Hin. apply list_elem_of_singleton in Hin. discriminate Hin.
Qed.

(** ** Reading a successful run backwards *)

Lemma bind_Ok {A B} (m : M A) (f : A → M B) w b w' :
  (m ≫= f) w = (Ok b, w') →
  ∃ a w1, m w = (Ok a, w1) ∧ f a w1 = (Ok b, w').
Proof.
  unfold mbind, M_bind. destruct (m w) as [[a|e] w1]; [|done].
  intros Hf. by exists a, w1.
Qed.

Lemma fmap_Ok {A B} (g : A → B) (m : M A) w b w' :
  (g <$> m) w = (Ok b, w') → ∃ a, m w = (Ok a, w') ∧ b = g a.
Proof.
  unfold fmap, M_fmap. destruct (m w) as [[a|e] w1]; [|done].
  intros [= <- <-]. by exists a.
Qed.

Lemma ret_Ok {A} (a b : A) w w' :
  (mret a : M A) w = (Ok b, w') → a = b ∧ w = w'.
Proof. by intros [= -> ->]. Qed.

Lemma backend_Ok {A} c (effect : M A) w a w' :
  backend c effect w = (Ok a, w') →
  next_reject w = None ∧ effect (log_call c w) = (Ok a, w').
Proof. unfold backend. by destruct (next_reject w). Qed.

Lemma backend_accepted {A} c (effect : M A) w :
  next_reject w = None → backend c effect w = effect (log_call c w).
Proof. unfold backend. by intros ->. Qed.

(** ** [setMessages] and [getMessages] *)

Section chats.
Context `{Runtime}.

(** A successful [setMessages] leaves the upserted row under [id] and the
    other rows as they were. *)
Lemma setMessages_Ok id messages urlId description timestamp metadata w w' :
  CloudflareDB.setMessages id messages urlId description timestamp metadata w
    = (Ok (), w') →
  chats w' = <[id := SQL.upserted_row (chats w !! id) urlId
                       (JSON_stringify messages) description
                       (final_timestamp timestamp w)
                       (JSON_stringify <$> metadata)]> (chats w) ∧
  (∀ u, chat_urlId (SQL.upserted_row (chats w !! id) urlId
                      (JSON_stringify messages) description
                      (final_timestamp timestamp w)
                      (JSON_stringify <$> metadata)) = Some u →
        ¬ SQL.urlId_taken (chats w) id u) ∧
  files w' = files w ∧ bucket w' = bucket w ∧
  rejects w' = rejects w ∧ clock w' = clock w ∧
  (∃ l, calls w' = calls w ++ l).
Proof.
  unfold CloudflareDB.setMessages. rewrite logged_id.
  intros Hrun. apply bind_Ok in Hrun as (tt & w1 & Hcheck & Hrun).
  assert (w1 = w) as ->.
  { destruct (truthy timestamp && _); [done|].
    by destruct (ret_Ok _ _ _ _ Hcheck) as [_ ->]. }
  apply bind_Ok in Hrun as (ts & w2 & Hts & Hrun).
  assert (ts = final_timestamp timestamp w ∧ chats w2 = chats w ∧
          files w2 = files w ∧ bucket w2 = bucket w ∧ calls w2 = calls w ∧
          rejects w2 = rejects w ∧ clock w2 = clock w)
    as (-> & Hc2 & Hf2 & Hb2 & Hl2 & Hr2 & Hk2).
  { destruct timestamp as [ts'|].
    - by destruct (ret_Ok _ _ _ _ Hts) as [<- <-].
    - apply fmap_Ok in Hts as (t & Ht & ->). by injection Ht as <- <-. }
  apply backend_Ok in Hrun as [_ Hrun]. simpl in Hrun.
  rewrite Hc2 in Hrun.
  unfold SQL.upsert_chat in Hrun.
  set (row := SQL.upserted_row _ _ _ _ _ _) in *.
  assert (∃ t, t = <[id := row]> (chats w) ∧ w' = set_chats t (log_call (D1 (UpsertChat id)) w2) ∧
          ∀ u, chat_urlId row = Some u → ¬ SQL.urlId_taken (chats w) id u)
    as (t & -> & -> & Hfree).
  { destruct (chat_urlId row) as [u|] eqn:Hu.
    - destruct (decide (SQL.urlId_taken (chats w) id u)); [done|].
      injection Hrun as <-. eexists. split; [done|]. split; [done|].
      by intros ? [= <-].
    - injection Hrun as <-. eexists. split; [done|]. split; [done|]. done. }
  simpl. repeat split; try done. exists [D1 (UpsertChat id)]. by rewrite Hl2.
Qed.

End chats.

Section chat_rows.
Context `{Runtime}.

Lemma run_eq {A} (m : M A) w r : (m w).1 = r → m w = (r, (m w).2).
Proof. intros <-. by destruct (m w). Qed.

Lemma upserted_row_messages old urlId messages description timestamp metadata :
  chat_messages (SQL.upserted_row old urlId messages description timestamp metadata)
    = messages ∧
  chat_timestamp (SQL.upserted_row old urlId messages description timestamp metadata)
    = timestamp.
Proof. by destruct old. Qed.

Lemma upserted_row_given old urlId messages description timestamp metadata :
  (∀ u, urlId = Some u →
     chat_urlId (SQL.upserted_row old urlId messages description timestamp
                   metadata) = Some u) ∧
  (∀ d, description = Some d →
     chat_description (SQL.upserted_row old urlId messages description timestamp
                         metadata) = Some d) ∧
  (∀ m, metadata = Some m →
     chat_metadata (SQL.upserted_row old urlId messages description timestamp
                      metadata) = Some m).
Proof. repeat split; intros ? ->; by destruct old. Qed.

(** C5.  Two successful [setMessages] on the same id: the row holds the
    messages and the timestamp of the second call, whatever the first
    stored; a [urlId], [description] or [metadata] that the second call
    leaves null is the one the first call gave, and one that it gives
    replaces it. *)
Theorem setMessages_coalesces_on_null
    (id : string) (messages1 messages2 : list Message)
    (urlId1 description1 timestamp1 urlId2 description2 timestamp2 : option string)
    (metadata1 metadata2 : option IChatMetadata) (w w1 w2 : World) :
  CloudflareDB.setMessages id messages1 urlId1 description1 timestamp1 metadata1 w
    = (Ok (), w1) →
  CloudflareDB.setMessages id messages2 urlId2 description2 timestamp2 metadata2 w1
    = (Ok (), w2) →
  ∃ row, chats w2 !! id = Some row ∧
    chat_messages row = JSON_stringify messages2 ∧
    chat_timestamp row = final_timestamp timestamp2 w1 ∧
    (∀ u, urlId1 = Some u → urlId2 = None → chat_urlId row = Some u) ∧
    (∀ d, description1 = Some d → description2 = None →
          chat_description row = Some d) ∧
    (∀ m, metadata1 = Some m → metadata2 = None →
          chat_metadata row = Some (JSON_stringify m)) ∧
    (∀ u, urlId2 = Some u → chat_urlId row = Some u) ∧
    (∀ d, description2 = Some d → chat_description row = Some d) ∧
    (∀ m, metadata2 = Some m → chat_metadata row = Some (JSON_stringify m)).
Proof.
  intros Hfirst Hsecond.
  apply setMessages_Ok in Hfirst as (Hc1 & _).
  apply setMessages_Ok in Hsecond as (Hc2 & _).
  rewrite Hc1, lookup_insert_eq in Hc2.
  eexists. split; [by rewrite Hc2, lookup_insert_eq|].
  set (row1 := SQL.upserted_row (chats w !! id) _ _ _ _ _) in *.
  destruct (upserted_row_given (chats w !! id) urlId1 (JSON_stringify messages1)
              description1 (final_timestamp timestamp1 w)
              (JSON_stringify <$> metadata1)) as (Hu1 & Hd1 & Hm1).
  fold row1 in Hu1, Hd1, Hm1. simpl.
  repeat split.
  - intros u -> ->. simpl. by apply Hu1.
  - intros d -> ->. simpl. by apply Hd1.
  - intros m -> ->. simpl. by apply Hm1.
  - by intros u ->.
  - by intros d ->.
  - by intros m ->.
Qed.

Lemma item_of_row_Ok id row messages metadata w :
  JSON_parse (chat_messages row) = Some messages →
  read_metadata (chat_metadata row) = Some metadata →
  CloudflareDB.item_of_row id row w =
    (Ok {| CloudflareDB.item_id := id;
           CloudflareDB.item_urlId := chat_urlId row;
           CloudflareDB.item_messages := messages;
           CloudflareDB.item_description := chat_description row;
           CloudflareDB.item_timestamp := chat_timestamp row;
           CloudflareDB.item_metadata := metadata |}, w).
Proof.
  intros Hmsgs Hmeta. unfold CloudflareDB.item_of_row, parse_json, read_metadata in *.
  unfold mbind, M_bind. rewrite Hmsgs. simpl.
  destruct (truthy (chat_metadata row)).
  - destruct (JSON_parse (default "" (chat_metadata row))) as [md|]; [|done].
    injection Hmeta as <-. done.
  - by injection Hmeta as <-.
Qed.

Lemma item_of_row_inv id row item w w' :
  CloudflareDB.item_of_row id row w = (Ok item, w') →
  w' = w ∧ CloudflareDB.item_id item = id ∧
  CloudflareDB.item_urlId item = chat_urlId row ∧
  CloudflareDB.item_description item = chat_description row ∧
  JSON_parse (chat_messages row) = Some (CloudflareDB.item_messages item) ∧
  read_metadata (chat_metadata row) = Some (CloudflareDB.item_metadata item).
Proof.
  unfold CloudflareDB.item_of_row, parse_json, read_metadata.
  unfold mbind, M_bind.
  destruct (JSON_parse (chat_messages row)) as [msgs|]; [simpl|done].
  destruct (truthy (chat_metadata row)).
  - unfold fmap at 1, M_fmap.
    destruct (JSON_parse (default "" (chat_metadata row))) as [md|]; [simpl|done].
    by intros [= <- <-].
  - by intros [= <- <-].
Qed.



End chat_rows.

(** ** [getUrlId] *)

(** What the search returns for a list of url ids. *)
Lemma getUrlId_pure_spec (idList : list string) (id : string) :
  (getUrlId_pure idList id ∉ idList) ∧
  (id ∉ idList → getUrlId_pure idList id = id) ∧
  (id ∈ idList →
   ∃ k, (2 ≤ k ≤ length idList + 2)%nat ∧
        getUrlId_pure idList id = suffixed id k ∧
        (∀ j, (2 ≤ j < k)%nat → suffixed id j ∈ idList)).
Proof.
  unfold getUrlId_pure, getUrlId_fuel.
  case_bool_decide as Hin.
  - destruct (least_free_suffix idList id 2 (S (length idList)))
      as (k & Hk & Hfree & Hbelow); [apply free_suffix_exists|].
    rewrite (getUrlId_loop_first_free _ _ _ _ k Hk Hfree Hbelow). simpl.
    split; [done|]. split; [done|].
    intros _. exists k. split; [lia|]. done.
  - simpl. split; [done|]. split; [done|]. done.
Qed.

(** The counter of the loop stays far below [2^53] for any array
    JavaScript can hold (at most [2^32 - 1] elements): it is an exact
    integer throughout. *)
Lemma getUrlId_pure_bound (idList : list string) (id : string) :
  id ∈ idList →
  ∃ k, (k ≤ length idList + 2)%nat ∧ getUrlId_pure idList id = suffixed id k.
Proof.
  intros Hin. destruct (getUrlId_pure_spec idList id) as (_ & _ & Hk).
  destruct (Hk Hin) as (k & Hle & Heq & _). exists k. split; [lia|done].
Qed.

Lemma elem_of_urlIds (t : gmap string ChatRow) (u : string) :
  u ∈ SQL.urlIds t ↔ ∃ id row, t !! id = Some row ∧ chat_urlId row = Some u.
Proof.
  unfold SQL.urlIds. rewrite list_elem_of_omap. split.
  - intros (row & Hrow & Hu). apply list_elem_of_fmap in Hrow as ([id row'] & -> & Hin).
    apply elem_of_map_to_list in Hin. by exists id, row'.
  - intros (id & row & Hrow & Hu). exists row. split; [|done].
    apply list_elem_of_fmap. exists (id, row). split; [done|].
    by apply elem_of_map_to_list.
Qed.

Lemma getUrlId_run (id : string) (w : World) :
  next_reject w = None →
  CloudflareDB.getUrlId id w =
    (Ok (getUrlId_pure (SQL.urlIds (chats w)) id), log_call (D1 SelectUrlIds) w).
Proof.
  intros Hacc. unfold CloudflareDB.getUrlId, CloudflareDB.getUrlIds.
  unfold logged, try_catch, d1, backend, mbind, M_bind. by rewrite Hacc.
Qed.

(** C3.  When D1 answers the query, [getUrlId id] returns a string that is
    the [urlId] of no row: [id] itself if no row has it, and otherwise
    [id-k] for the least [k >= 2] such that no row has [id-k].  With the
    url ids ["5"] and ["5-2"] taken, the answer for ["5"] is ["5-3"]. *)
Theorem getUrlId_first_free (id : string) (w : World) :
  next_reject w = None →
  ∃ r, (CloudflareDB.getUrlId id w).1 = Ok r ∧
       (∀ j row, chats w !! j = Some row → chat_urlId row ≠ Some r) ∧
       (id ∉ SQL.urlIds (chats w) → r = id) ∧
       (id ∈ SQL.urlIds (chats w) →
        ∃ k, (2 ≤ k)%nat ∧ r = suffixed id k ∧
             (∀ j, (2 ≤ j < k)%nat → suffixed id j ∈ SQL.urlIds (chats w))) ∧
       (id = "5" → SQL.urlIds (chats w) ≡ₚ ["5"; "5-2"] → r = "5-3").
Proof.
  intros Hacc. rewrite getUrlId_run by done. eexists. split; [done|].
  destruct (getUrlId_pure_spec (SQL.urlIds (chats w)) id) as (Hfree & Hout & Hin).
  split; [|split; [done|split]].
  - intros j row Hrow Hu. apply Hfree, elem_of_urlIds. by exists j, row.
  - intros Hid. destruct (Hin Hid) as (k & Hk & Heq & Hbelow).
    exists k. split; [lia|done].
  - intros -> Hperm.
    assert (∀ s, s ∈ SQL.urlIds (chats w) ↔ s ∈ ["5"; "5-2"]) as Hmem.
    { intros s. by rewrite Hperm. }
    assert ("5" ∈ SQL.urlIds (chats w)) as Hid.
    { apply Hmem. by_decide. }
    destruct (Hin Hid) as (k & Hk & Heq & Hbelow).
    rewrite Heq in Hfree |- *.
    assert (suffixed "5" 2 = "5-2") as H2 by (by vm_compute).
    assert (suffixed "5" 3 = "5-3") as H3 by (by vm_compute).
    destruct (decide (k = 2%nat)) as [->|].
    { exfalso. apply Hfree, Hmem. rewrite H2. by_decide. }
    destruct (decide (k = 3%nat)) as [->|]; [done|].
    specialize (Hbelow 3%nat ltac:(lia)). apply Hmem in Hbelow.
    rewrite H3 in Hbelow. exfalso.
    by apply (bool_decide_eq_false_1 ("5-3" ∈ ["5"; "5-2"])) in Hbelow.
Qed.

(** ** Numbers *)

Section numbers.

Lemma round53_safe z : Z.abs z < 2 ^ 53 → Number.round53 z = z.
Proof.
  intros Hz. unfold Number.round53.
  by rewrite (proj2 (Z.ltb_lt _ _) Hz).
Qed.

(** From [2^53] on, a number rounds to a number from [2^53] on. *)
Lemma round53_large z : 2 ^ 53 ≤ z → 2 ^ 53 ≤ Number.round53 z.
Proof.
  intros Hz. unfold Number.round53.
  assert (0 < z) as Hpos by lia.
  rewrite (Z.abs_eq z) by lia. rewrite (Z.sgn_pos z) by done.
  destruct (Z.ltb_spec z (2 ^ 53)) as [|_]; [lia|].
  set (e := Z.log2 z - 52).
  assert (53 ≤ Z.log2 z) as Hlog.
  { change 53 with (Z.log2 (2 ^ 53)). by apply Z.log2_le_mono. }
  assert (1 ≤ e) as He by (unfold e; lia).
  assert (2 ^ (52 + e) ≤ z) as Hlow.
  { replace (52 + e) with (Z.log2 z) by (unfold e; lia).
    apply Z.log2_spec. done. }
  assert (0 < 2 ^ e) as Hpow by (apply Z.pow_pos_nonneg; lia).
  assert (2 ^ 52 ≤ z / 2 ^ e) as Hq.
  { apply Z.div_le_lower_bound; [done|].
    rewrite Z.pow_add_r in Hlow by lia. lia. }
  assert (2 ^ 53 ≤ 2 ^ 52 * 2 ^ e) as Hbig.
  { change (2 ^ 53) with (2 ^ 52 * 2 ^ 1).
    apply Z.mul_le_mono_nonneg_l; [lia|].
    apply Z.pow_le_mono_r; lia. }
  set (q := z / 2 ^ e) in *.
  assert (∀ q', q ≤ q' → 2 ^ 53 ≤ 1 * (q' * 2 ^ e)) as Hany.
  { intros q' Hq'. rewrite Z.mul_1_l.
    etrans; [exact Hbig|]. apply Z.mul_le_mono_nonneg_r; lia. }
  repeat case_match; apply Hany; lia.
Qed.

Lemma shortest_from_safe exps a :
  Forall (λ e, 0 ≤ e) exps → 0 ≤ a < 2 ^ 53 → Number.shortest_from exps a = a.
Proof.
  intros Hexps Ha. induction Hexps as [|e exps He _ IH]; [done|]. simpl.
  assert (0 < 10 ^ e) as Hp by (apply Z.pow_pos_nonneg; lia).
  set (p := 10 ^ e) in *.
  assert (0 ≤ a / p * p ≤ a) as Hlo.
  { split; [apply Z.mul_nonneg_nonneg; [apply Z.div_pos|]; lia|].
    rewrite Z.mul_comm. apply Z.mul_div_le. done. }
  assert (a < a / p * p + p) as Hhi.
  { pose proof (Z.mod_pos_bound a p Hp). pose proof (Z.div_mod a p). lia. }
  rewrite (round53_safe (a / p * p)) by lia.
  assert ((Number.round53 (a / p * p + p) =? a) = false) as ->.
  { apply Z.eqb_neq.
    destruct (Z.lt_ge_cases (a / p * p + p) (2 ^ 53)) as [Hsmall|Hbig].
    - rewrite round53_safe by lia. lia.
    - pose proof (round53_large _ Hbig). lia. }
  rewrite andb_false_r.
  destruct (Z.eqb_spec (a / p * p) a) as [Heq|Hne]; [done|]. apply IH.
Qed.

Lemma shortest_safe a : 0 ≤ a < 2 ^ 53 → Number.shortest a = a.
Proof.
  intros Ha. apply shortest_from_safe; [|done].
  apply Forall_fmap, Forall_forall. intros n _. simpl. lia.
Qed.

(** Within the safe integers [String] writes every digit. *)
Lemma toString_safe z : Z.abs z < 2 ^ 53 → Number.toString z = pretty z.
Proof.
  intros Hz. unfold Number.toString.
  destruct (Z.ltb_spec z 0) as [Hneg|Hpos].
  - rewrite shortest_safe by lia. by destruct z.
  - by rewrite shortest_safe by lia.
Qed.

(** Adding one to a safe integer is exact, and is printed exactly. *)
Lemma toString_add_one m :
  Z.abs m < 2 ^ 53 → Number.toString (Number.add m 1) = pretty (m + 1).
Proof.
  intros Hm. unfold Number.add.
  destruct (decide (m + 1 = 2 ^ 53)) as [->|Hne]; [by vm_compute|].
  rewrite round53_safe by lia. apply toString_safe. lia.
Qed.

End numbers.

(** ** [getNextId] *)

Section next_id.

Lemma max_of_spec (l : list Z) (m : Z) :
  SQL.max_of l = Some m ↔ m ∈ l ∧ ∀ x, x ∈ l → x ≤ m.
Proof.
  destruct l as [|x l]; simpl.
  { split; [done|]. intros [Hin _]. by apply elem_of_nil in Hin. }
  assert (foldr Z.max x l ∈ x :: l ∧ ∀ y, y ∈ x :: l → y ≤ foldr Z.max x l)
    as [Hin Hmax].
  { induction l as [|y l [IHin IHmax]]; simpl.
    - split; [left|]. intros y Hy. apply list_elem_of_singleton in Hy. lia.
    - split.
      + destruct (Z.max_spec y (foldr Z.max x l)) as [[_ ->]|[_ ->]].
        * apply elem_of_cons in IHin as [->|Hin]; [left|].
          right. by right.
        * right. left.
      + intros z Hz. apply elem_of_cons in Hz as [->|Hz].
        * specialize (IHmax x ltac:(left)). lia.
        * apply elem_of_cons in Hz as [->|Hz]; [lia|].
          specialize (IHmax z ltac:(by right)). lia. }
  split.
  - by intros [= <-].
  - intros [Hm Hle]. f_equal.
    specialize (Hle _ Hin). specialize (Hmax _ Hm). lia.
Qed.

Lemma max_id_spec (t : gmap string ChatRow) (m : Z) :
  SQL.max_id t = Some m ↔
  (∃ id, id ∈ dom t ∧ SQL.cast_integer id = m) ∧
  (∀ id, id ∈ dom t → SQL.cast_integer id ≤ m).
Proof.
  unfold SQL.max_id. rewrite max_of_spec.
  assert (∀ id, id ∈ (map_to_list t).*1 ↔ id ∈ dom t) as Hdom.
  { intros id. rewrite elem_of_dom, list_elem_of_fmap. split.
    - intros ([id' row] & -> & Hin). apply elem_of_map_to_list in Hin. by eexists.
    - intros [row Hrow]. exists (id, row). split; [done|].
      by apply elem_of_map_to_list. }
  split.
  - intros [Hin Hmax]. apply list_elem_of_fmap in Hin as (id & -> & Hid). split.
    + exists id. split; [by apply Hdom|done].
    + intros id' Hid'. apply Hmax, list_elem_of_fmap. exists id'.
      split; [done|]. by apply Hdom.
  - intros [(id & Hid & <-) Hmax]. split.
    + apply list_elem_of_fmap. exists id. split; [done|]. by apply Hdom.
    + intros x Hx. apply list_elem_of_fmap in Hx as (id' & -> & Hid').
      by apply Hmax, Hdom.
Qed.

Lemma max_id_empty (t : gmap string ChatRow) : SQL.max_id t = None ↔ t = ∅.
Proof.
  unfold SQL.max_id. split.
  - destruct (map_to_list t) as [|[id row] l] eqn:Hl; [|done].
    intros _. by apply map_to_list_empty_iff.
  - intros ->. by rewrite map_to_list_empty.
Qed.

Lemma getNextId_run (w : World) :
  next_reject w = None →
  CloudflareDB.getNextId w =
    (Ok (Number.toString (Number.add (highestId (chats w)) 1)),
     log_call (D1 SelectMaxId) w).
Proof.
  intros Hacc. unfold CloudflareDB.getNextId.
  unfold logged, try_catch, d1, backend, mbind, M_bind. by rewrite Hacc.
Qed.

(** C4, as the code has it.  When D1 answers, [getNextId] returns ["1"] on
    an empty table, and otherwise the decimal of [max + 1], where [max] is
    the greatest of the ids read as [CAST(id AS INTEGER)] reads them,
    provided [max] is a safe integer (below [2^53] in magnitude); on the
    ids ["1"], ["2"] and ["7"] it returns ["8"]. *)
Theorem getNextId_max_plus_one (w : World) :
  next_reject w = None →
  ∃ r, (CloudflareDB.getNextId w).1 = Ok r ∧
       (chats w = ∅ → r = "1") ∧
       (∀ m, (∃ id, id ∈ dom (chats w) ∧ SQL.cast_integer id = m) →
             (∀ id, id ∈ dom (chats w) → SQL.cast_integer id ≤ m) →
             Z.abs m < 2 ^ 53 →
             r = pretty (m + 1)) ∧
       (dom (chats w) = {["1"; "2"; "7"]} → r = "8").
Proof.
  intros Hacc. rewrite getNextId_run by done. eexists. split; [done|].
  assert (∀ m, (∃ id, id ∈ dom (chats w) ∧ SQL.cast_integer id = m) →
               (∀ id, id ∈ dom (chats w) → SQL.cast_integer id ≤ m) →
               Z.abs m < 2 ^ 53 →
               Number.toString (Number.add (highestId (chats w)) 1)
               = pretty (m + 1)) as Hmax.
  { intros m Hex Hle Hsafe. unfold highestId.
    rewrite (proj2 (max_id_spec (chats w) m)) by done. simpl.
    rewrite round53_safe by done.
    destruct (Z.eqb_spec m 0) as [->|_]; by apply toString_add_one. }
  split; [|split; [done|]].
  - intros Hempty. unfold highestId.
    by rewrite (proj2 (max_id_empty (chats w)) Hempty).
  - intros Hdom. rewrite (Hmax 7); [done| | |done].
    + exists "7". split; [rewrite Hdom; by_decide|done].
    + intros id. rewrite Hdom. rewrite !elem_of_union, !elem_of_singleton.
      intros [[->| ->]| ->]; by vm_compute.
Qed.

End next_id.

(** Against C4 as stated: with the single id ["9007199254740992"] ([2^53])
    in the table, the maximum is [2^53] and [getNextId] returns
    ["9007199254740992"] again, not the decimal of the maximum plus one:
    [2^53 + 1] is not a number and rounds back to [2^53]. *)
Lemma getNextId_beyond_safe_integers :
  let w := Reference.with_chats [("9007199254740992", None)] in
  next_reject w = None ∧
  SQL.max_id (chats w) = Some 9007199254740992 ∧
  (CloudflareDB.getNextId w).1 = Ok "9007199254740992" ∧
  (CloudflareDB.getNextId w).1 ≠ Ok (pretty (9007199254740992 + 1)).
Proof.
  intros w. split; [done|]. split; [by vm_compute|].
  assert ((CloudflareDB.getNextId w).1 = Ok "9007199254740992") as Hrun
    by (by vm_compute).
  split; [done|]. rewrite Hrun. by vm_compute.
Qed.

(** ** Dates: [Date.parse] reads back what [toISOString] writes *)

Section dates.

Lemma era_years_ok : forallb era_year_ok (seqZ 0 400) = true.
Proof. by vm_compute. Qed.

Lemma year_days_ok : forallb year_day_ok (seqZ 0 366) = true.
Proof. by vm_compute. Qed.

Lemma era_year_ok_spec yoe :
  0 ≤ yoe ≤ 399 →
  Date.year_of_era (Date.days_before_year yoe) = yoe ∧
  Date.year_of_era (last_day_of_year yoe) = yoe ∧
  last_day_of_year yoe - Date.days_before_year yoe
    = (if Date.is_leap (yoe + 1) then 365 else 364).
Proof.
  intros Hy.
  assert (era_year_ok yoe = true) as Hok.
  { pose proof era_years_ok as Hall. rewrite forallb_forall in Hall.
    apply Hall, list_elem_of_In, elem_of_seqZ. lia. }
  unfold era_year_ok in Hok.
  rewrite !andb_true_iff, !Z.eqb_eq in Hok. by destruct Hok as [[? ?] ?].
Qed.

Lemma year_of_era_mono a b :
  0 ≤ a ≤ b → Date.year_of_era a ≤ Date.year_of_era b.
Proof.
  intros Hab. unfold Date.year_of_era. apply Z.div_le_mono; [lia|].
  assert (b / 1460 - a / 1460 ≤ b - a) by div_lia.
  assert (b / 146096 - a / 146096 ≤ b / 36524 - a / 36524) by div_lia.
  lia.
Qed.

(** The day [doe] of an era lies in the year [year_of_era doe]. *)
Lemma year_of_era_spec doe :
  0 ≤ doe < 146097 →
  0 ≤ Date.year_of_era doe ≤ 399 ∧
  Date.days_before_year (Date.year_of_era doe) ≤ doe ∧
  doe ≤ last_day_of_year (Date.year_of_era doe).
Proof.
  intros Hdoe. set (yoe := Date.year_of_era doe).
  assert (0 ≤ yoe ≤ 399) as Hy.
  { split.
    - change 0 with (Date.year_of_era 0) at 1. apply year_of_era_mono. lia.
    - change 399 with (Date.year_of_era 146096). apply year_of_era_mono. lia. }
  split; [done|].
  destruct (era_year_ok_spec yoe Hy) as (Hfirst & Hlast & Hlen).
  split.
  - destruct (Z.le_gt_cases (Date.days_before_year yoe) doe) as [|Hlt]; [done|].
    exfalso.
    assert (1 ≤ yoe) as Hpos.
    { destruct (decide (yoe = 0)) as [Hz|]; [|lia].
      rewrite Hz in Hlt. change (Date.days_before_year 0) with 0 in Hlt. lia. }
    destruct (era_year_ok_spec (yoe - 1)) as (_ & Hprev & _); [lia|].
    assert (last_day_of_year (yoe - 1) = Date.days_before_year yoe - 1) as Hadj.
    { unfold last_day_of_year. destruct (Z.eqb_spec (yoe - 1) 399); [lia|].
      by replace (yoe - 1 + 1) with yoe by lia. }
    pose proof (year_of_era_mono doe (last_day_of_year (yoe - 1))) as Hmono.
    rewrite Hprev in Hmono. fold yoe in Hmono. lia.
  - destruct (Z.le_gt_cases doe (last_day_of_year yoe)) as [|Hgt]; [done|].
    exfalso.
    assert (yoe < 399) as Hsmall.
    { destruct (decide (yoe = 399)) as [Hz|]; [|lia].
      rewrite Hz in Hgt. change (last_day_of_year 399) with 146096 in Hgt. lia. }
    destruct (era_year_ok_spec (yoe + 1)) as (Hnext & _ & _); [lia|].
    assert (last_day_of_year yoe = Date.days_before_year (yoe + 1) - 1) as Hadj.
    { unfold last_day_of_year. destruct (Z.eqb_spec yoe 399); [lia|done]. }
    assert (0 ≤ Date.days_before_year (yoe + 1)) as Hnn.
    { unfold Date.days_before_year. div_lia. }
    pose proof (year_of_era_mono (Date.days_before_year (yoe + 1)) doe) as Hmono.
    rewrite Hnext in Hmono. fold yoe in Hmono. lia.
Qed.

Lemma year_day_ok_spec doy (leap : bool) :
  0 ≤ doy ≤ (if leap then 365 else 364) →
  ∃ m d, Date.month_day doy = (m, d) ∧
    1 ≤ m ≤ 12 ∧ 1 ≤ d ≤ Date.month_days leap m ∧
    (m = 2 ∨ 1 ≤ d ≤ Date.month_days false m) ∧
    (153 * (if 2 <? m then m - 3 else m + 9) + 2) / 5 + d - 1 = doy.
Proof.
  intros Hdoy.
  assert (year_day_ok doy = true) as Hok.
  { pose proof year_days_ok as Hall. rewrite forallb_forall in Hall.
    apply Hall, list_elem_of_In, elem_of_seqZ. destruct leap; lia. }
  unfold year_day_ok in Hok.
  destruct (Date.month_day doy) as [m d]. exists m, d. split; [done|].
  rewrite !andb_true_iff, !Z.leb_le, Z.eqb_eq in Hok.
  destruct Hok as ((((Hm1 & Hm12) & Hd1) & Hd) & Hback).
  assert (∀ l, Date.month_days false m ≤ Date.month_days l m) as Hmono.
  { intros l. unfold Date.month_days. destruct l; repeat case_match; lia. }
  assert (m ≠ 2 → ∀ l, Date.month_days l m = Date.month_days false m) as Hother.
  { intros Hne l. unfold Date.month_days.
    destruct (Z.eqb_spec m 2); [done|]. done. }
  destruct (Z.eqb_spec doy 365) as [->|Hne].
  - destruct leap; [|lia]. repeat split; try lia.
    destruct (decide (m = 2)) as [|Hm]; [by left|right].
    rewrite <-(Hother Hm true). lia.
  - specialize (Hmono leap). repeat split; lia.
Qed.

Lemma era_day_ok_spec doe :
  0 ≤ doe < 146097 →
  ∃ y m d, Date.civil_of_doe doe = (y, m, d) ∧
    let yoe := if m <=? 2 then y - 1 else y in
    0 ≤ yoe ≤ 399 ∧ 1 ≤ m ≤ 12 ∧ 1 ≤ d ≤ Date.days_in_month y m ∧
    Date.doe_of_civil yoe m d = doe.
Proof.
  intros Hdoe. unfold Date.civil_of_doe. cbv zeta.
  destruct (year_of_era_spec doe Hdoe) as (Hy & Hlo & Hhi).
  set (yoe := Date.year_of_era doe) in *.
  destruct (era_year_ok_spec yoe Hy) as (_ & _ & Hlen).
  destruct (year_day_ok_spec (doe - Date.days_before_year yoe)
              (Date.is_leap (yoe + 1)))
    as (m & d & -> & Hm & Hd & Hnotfeb & Hback).
  { destruct (Date.is_leap (yoe + 1)); lia. }
  exists (yoe + (if m <=? 2 then 1 else 0)), m, d. split; [done|].
  assert ((if m <=? 2 then yoe + (if m <=? 2 then 1 else 0) - 1
           else yoe + (if m <=? 2 then 1 else 0)) = yoe) as ->
    by (destruct (m <=? 2); lia).
  split; [done|]. split; [done|]. split.
  - unfold Date.days_in_month.
    destruct (Z.leb_spec m 2) as [Hjf|Hlater]; [done|].
    rewrite Z.add_0_r. destruct Hnotfeb as [->|Hd']; [lia|].
    assert (Date.month_days (Date.is_leap yoe) m = Date.month_days false m) as ->.
    { unfold Date.month_days. destruct (Z.eqb_spec m 2); [lia|done]. }
    done.
  - unfold Date.doe_of_civil. cbv zeta. rewrite Hback. lia.
Qed.

Lemma is_leap_era y era : Date.is_leap (y + era * 400) = Date.is_leap y.
Proof.
  unfold Date.is_leap.
  replace (y + era * 400) with (y + (era * 100) * 4) at 1 by lia.
  replace (y + era * 400) with (y + (era * 4) * 100) at 1 by lia.
  by rewrite !Z.mod_add by lia.
Qed.

Lemma days_in_month_era y era m :
  Date.days_in_month (y + era * 400) m = Date.days_in_month y m.
Proof. unfold Date.days_in_month. by rewrite is_leap_era. Qed.

(** A day number becomes a date of the calendar, and that date the day
    number again. *)
Lemma civil_from_days_spec z :
  ∃ y m d, Date.civil_from_days z = (y, m, d) ∧
    1 ≤ m ≤ 12 ∧ 1 ≤ d ≤ Date.days_in_month y m ∧
    Date.days_from_civil y m d = z ∧
    (z + 719468) / 146097 * 400 ≤ y ≤ (z + 719468) / 146097 * 400 + 400.
Proof.
  unfold Date.civil_from_days. cbv zeta.
  set (z' := z + 719468). set (era := z' / 146097).
  assert (0 ≤ z' mod 146097 < 146097) as Hdoe by (apply Z.mod_pos_bound; lia).
  destruct (era_day_ok_spec _ Hdoe) as (y & m & d & -> & Hyoe & Hm & Hd & Hback).
  cbv zeta in Hyoe, Hback.
  exists (y + era * 400), m, d. split; [done|]. split; [done|].
  rewrite days_in_month_era. split; [done|].
  set (yoe := if m <=? 2 then y - 1 else y) in *.
  split.
  - unfold Date.days_from_civil.
    replace (if m <=? 2 then y + era * 400 - 1 else y + era * 400)
      with (yoe + era * 400) by (unfold yoe; destruct (m <=? 2); lia).
    rewrite Z.div_add, Z.mod_add by lia.
    rewrite (Z.div_small yoe 400), (Z.mod_small yoe 400) by lia.
    rewrite Hback. pose proof (Z.div_mod z' 146097). unfold era, z' in *. lia.
  - unfold yoe in Hyoe. destruct (m <=? 2); lia.
Qed.

Lemma digit_value_char n : 0 ≤ n ≤ 9 → digit_value (digit_char n) = Some n.
Proof.
  intros Hn.
  assert (n = 0 ∨ n = 1 ∨ n = 2 ∨ n = 3 ∨ n = 4 ∨ n = 5 ∨ n = 6 ∨ n = 7
          ∨ n = 8 ∨ n = 9) as Hcases by lia.
  repeat (destruct Hcases as [->|Hcases]; [done|]). by subst.
Qed.

Lemma read_sign_digit n rest :
  0 ≤ n ≤ 9 →
  Date.read_sign (String (digit_char n) rest)
  = (1, 4%nat, String (digit_char n) rest).
Proof.
  intros Hn.
  assert (n = 0 ∨ n = 1 ∨ n = 2 ∨ n = 3 ∨ n = 4 ∨ n = 5 ∨ n = 6 ∨ n = 7
          ∨ n = 8 ∨ n = 9) as Hcases by lia.
  repeat (destruct Hcases as [->|Hcases]; [done|]). by subst.
Qed.

Lemma read_digit k acc n rest :
  0 ≤ n ≤ 9 →
  Date.read_digits (S k) acc (String (digit_char n) rest)
  = Date.read_digits k (10 * acc + n) rest.
Proof. intros Hn. simpl. by rewrite digit_value_char. Qed.

Lemma read_pad2 k acc n rest :
  0 ≤ n < 100 →
  Date.read_digits (S (S k)) acc (Date.pad2 n rest)
  = Date.read_digits k (100 * acc + n) rest.
Proof.
  intros Hn. unfold Date.pad2.
  assert (0 ≤ n / 10 ≤ 9 ∧ 0 ≤ n mod 10 ≤ 9) as [Hq Hr] by div_lia.
  rewrite !read_digit by done. f_equal. div_lia.
Qed.

Lemma read_pad3 k acc n rest :
  0 ≤ n < 1000 →
  Date.read_digits (S (S (S k))) acc (Date.pad3 n rest)
  = Date.read_digits k (1000 * acc + n) rest.
Proof.
  intros Hn. unfold Date.pad3.
  assert (0 ≤ n / 100 ≤ 9 ∧ 0 ≤ n mod 100 < 100) as [Hq Hr] by div_lia.
  rewrite read_digit, read_pad2 by done. f_equal. div_lia.
Qed.

Lemma read_pad4 k acc n rest :
  0 ≤ n < 10000 →
  Date.read_digits (S (S (S (S k)))) acc (Date.pad4 n rest)
  = Date.read_digits k (10000 * acc + n) rest.
Proof.
  intros Hn. unfold Date.pad4.
  assert (0 ≤ n / 100 < 100 ∧ 0 ≤ n mod 100 < 100) as [Hq Hr] by div_lia.
  rewrite !read_pad2 by done. f_equal. div_lia.
Qed.

Lemma read_pad6 k acc n rest :
  0 ≤ n < 1000000 →
  Date.read_digits (S (S (S (S (S (S k)))))) acc (Date.pad6 n rest)
  = Date.read_digits k (1000000 * acc + n) rest.
Proof.
  intros Hn. unfold Date.pad6.
  assert (0 ≤ n / 10000 < 100 ∧ 0 ≤ n mod 10000 < 10000) as [Hq Hr] by div_lia.
  rewrite read_pad2, read_pad4 by done. f_equal. div_lia.
Qed.

(** The year: sign, width and value come back. *)
Lemma read_year y rest :
  -999999 ≤ y ≤ 999999 →
  ∃ sign width n,
    Date.read_sign (Date.year_string y rest) = (sign, width, n) ∧
    ∃ y', Date.read_digits width 0 n = Some (y', rest) ∧
          sign * y' = y ∧ ¬ (sign = -1 ∧ sign * y' = 0).
Proof.
  intros Hy. unfold Date.year_string.
  destruct (Z.leb_spec 0 y) as [Hpos|Hneg]; simpl.
  - destruct (Z.leb_spec y 9999) as [Hsmall|Hbig]; simpl.
    + exists 1, 4%nat, (Date.pad4 y rest). split.
      * unfold Date.pad4, Date.pad2 at 1.
        apply read_sign_digit. div_lia.
      * exists y. rewrite read_pad4 by lia. simpl.
        split; [f_equal; f_equal; lia|]. lia.
    + destruct (Z.ltb_spec y 0); [lia|].
      exists 1, 6%nat, (Date.pad6 (Z.abs y) rest). split; [done|].
      exists y. rewrite read_pad6 by lia. simpl.
      split; [f_equal; f_equal; lia|]. lia.
  - destruct (Z.ltb_spec y 0); [|lia].
    exists (-1), 6%nat, (Date.pad6 (Z.abs y) rest). split; [done|].
    exists (- y). rewrite read_pad6 by lia. simpl.
    split; [f_equal; f_equal; lia|]. lia.
Qed.

End dates.

Section date_round_trip.

Lemma expect_cons c s : Str.expect c (String c s) = Some s.
Proof. unfold Str.expect. by rewrite decide_True. Qed.

Lemma read2 n rest :
  0 ≤ n < 100 → Date.read_digits 2 0 (Date.pad2 n rest) = Some (n, rest).
Proof. intros Hn. rewrite read_pad2 by done. simpl. repeat f_equal; lia. Qed.

Lemma read3 n rest :
  0 ≤ n < 1000 → Date.read_digits 3 0 (Date.pad3 n rest) = Some (n, rest).
Proof. intros Hn. rewrite read_pad3 by done. simpl. repeat f_equal; lia. Qed.

Lemma parse_toISOString t :
  Date.time_value t → Date.parse_iso_utc (Date.toISOString t) = Some t.
Proof.
  unfold Date.time_value, Date.max_time. intros Ht.
  unfold Date.toISOString, Date.ms_per_day.
  set (ms := t mod 86400000). set (days := t / 86400000).
  destruct (civil_from_days_spec days) as (y & m & d & -> & Hm & Hd & Hback & Hy).
  assert (-100000000 ≤ days ≤ 100000000) as Hdays by (unfold days; div_lia).
  assert (-999999 ≤ y ≤ 999999) as Hyear by (clear -Hy Hdays; div_lia).
  assert (Date.days_in_month y m ≤ 31) as Hdim.
  { unfold Date.days_in_month, Date.month_days. repeat case_match; lia. }
  assert (0 ≤ ms < 86400000) as Hms by (unfold ms; div_lia).
  unfold Date.parse_iso_utc.
  match goal with
  | |- context [Date.year_string y ?rest] =>
      destruct (read_year y rest Hyear)
    as (sign & width & n & -> & y' & Hread & Hsign & Hnz)
  end.
  rewrite Hread. cbn [mbind option_bind].
  rewrite expect_cons. cbn [mbind option_bind].
  rewrite read2 by lia. cbn [mbind option_bind].
  rewrite expect_cons. cbn [mbind option_bind].
  rewrite read2 by lia. cbn [mbind option_bind].
  rewrite expect_cons. cbn [mbind option_bind].
  rewrite read2 by div_lia. cbn [mbind option_bind].
  rewrite expect_cons. cbn [mbind option_bind].
  rewrite read2 by div_lia. cbn [mbind option_bind].
  rewrite expect_cons. cbn [mbind option_bind].
  rewrite read2 by div_lia. cbn [mbind option_bind].
  rewrite expect_cons. cbn [mbind option_bind].
  rewrite read3 by div_lia. cbn [mbind option_bind].
  rewrite expect_cons. cbn [mbind option_bind].
  rewrite Hsign, Hback. unfold Date.ms_per_day, Date.max_time.
  assert (days * 86400000 + ms / 3600000 * 3600000 + (ms / 60000) mod 60 * 60000
          + (ms / 1000) mod 60 * 1000 + ms mod 1000 = t) as ->
    by (unfold days, ms; div_lia).
  rewrite decide_True; [done|].
  split; [done|]. split; [by rewrite <-Hsign|].
  repeat split; try lia; div_lia.
Qed.

(** [Date.parse(new Date(t).toISOString())] is [t]. *)
Lemma Date_parse_toISOString `{Runtime} t :
  Date.time_value t → Date.parse (Date.toISOString t) = Some t.
Proof. intros Ht. unfold Date.parse. by rewrite parse_toISOString. Qed.

End date_round_trip.

(** ** A stored file and its metadata *)

Section stored_file.
Context `{Runtime} (storage : CloudflareStorage).

Lemma byte_size_bytes_of fileData :
  byte_size fileData = Z.of_nat (length (bytes_of fileData)).
Proof. by destruct fileData. Qed.

Lemma insert_file_Ok id row chats files t :
  SQL.insert_file id row chats files = Ok t → t = <[id := row]> files.
Proof.
  unfold SQL.insert_file. repeat case_match; by intros [= <-].
Qed.

(** A successful [storeFile] leaves the blob under the full key of the id
    it returns and the row under the id. *)
Lemma storeFile_Ok fileData path chatId contentType metadata w id w1 :
  CloudflareFileManager.storeFile storage fileData path chatId contentType
    metadata w = (Ok id, w1) →
  id = entropy w (uuids w) ∧
  bucket w1 !! CloudflareStorage.getFullKey storage id
    = Some {| obj_body := bytes_of fileData;
              obj_customMetadata :=
                Some (CloudflareFileManager.object_metadata
                        metadata path contentType chatId) |} ∧
  files w1 !! id
    = Some {| file_chatId := or_null chatId; file_path := path;
              file_contentType := or_null contentType;
              file_size := byte_size fileData;
              file_timestamp := Date.toISOString (clock w (dates w));
              file_metadata := JSON_stringify <$> metadata |}.
Proof.
  intros Hrun.
  pose proof (storeFile_run storage fileData path chatId contentType metadata w)
    as Hcases.
  cbv zeta in Hcases. rewrite Hrun in Hcases.
  destruct (next_reject w); [by destruct Hcases|].
  destruct Hcases as (_ & Hbucket & Hcases).
  destruct (rejects w (S (length (calls w)))); [by destruct Hcases|].
  destruct (SQL.insert_file _ _ _ _) as [t|e] eqn:Hins; [|by destruct Hcases].
  destruct Hcases as [[= ->] Hfiles]. apply insert_file_Ok in Hins as ->.
  split; [done|]. split.
  - by rewrite Hbucket, lookup_insert_eq.
  - by rewrite Hfiles, lookup_insert_eq.
Qed.

Lemma getFileMetadata_run id row metadata w :
  next_reject w = None →
  files w !! id = Some row →
  (if truthy (file_metadata row)
   then JSON_parse (default "" (file_metadata row)) = Some metadata
   else True) →
  (CloudflareFileManager.getFileMetadata id w).1 =
    Ok (Some {| meta_id := id; meta_chatId := file_chatId row;
                meta_path := file_path row;
                meta_contentType := file_contentType row;
                meta_size := file_size row;
                meta_timestamp := file_timestamp row;
                meta_metadata := if truthy (file_metadata row)
                                 then Some metadata else None |}).
Proof.
  intros Hacc Hrow Hmeta. unfold CloudflareFileManager.getFileMetadata.
  unfold logged, try_catch, d1, backend, mbind, M_bind.
  rewrite Hacc. simpl. rewrite Hrow.
  destruct (truthy (file_metadata row)); [|done].
  unfold parse_json, fmap, M_fmap. by rewrite Hmeta.
Qed.

(** C7.  After a successful [storeFile], [getFileMetadata] of the id it
    returned yields a record whose [size] is the number of bytes of the
    input (of its UTF-8 encoding when it is a string), which is the length
    of the blob in the bucket, and whose [timestamp] is what [toISOString]
    wrote for the time of the call, which [Date.parse] reads back;
    provided D1 accepts the query, the clock shows a time value, and
    [JSON.parse] reads back the metadata [JSON.stringify] wrote. *)
Theorem getFileMetadata_after_storeFile
    (fileData : FileData) (path : string) (chatId contentType : option string)
    (metadata : option (gmap string string)) (w w1 : World) (id : string) :
  CloudflareFileManager.storeFile storage fileData path chatId contentType
    metadata w = (Ok id, w1) →
  next_reject w1 = None →
  Date.time_value (clock w (dates w)) →
  (∀ m, metadata = Some m → JSON_parse (JSON_stringify m) = Some m) →
  ∃ record,
    (CloudflareFileManager.getFileMetadata id w1).1 = Ok (Some record) ∧
    meta_id record = id ∧
    meta_size record = byte_size fileData ∧
    meta_size record = Z.of_nat (length (bytes_of fileData)) ∧
    (∃ blob, bucket w1 !! CloudflareStorage.getFullKey storage id = Some blob ∧
             meta_size record = Z.of_nat (length (obj_body blob))) ∧
    meta_timestamp record = Date.toISOString (clock w (dates w)) ∧
    Date.parse (meta_timestamp record) = Some (clock w (dates w)).
Proof.
  intros Hstore Hacc Htime Hjson.
  apply storeFile_Ok in Hstore as (Hid & Hblob & Hrow).
  eexists. split.
  - apply (getFileMetadata_run id _ (default ∅ metadata) w1 Hacc Hrow).
    simpl. destruct metadata as [m|]; simpl; [|done].
    case_match; [|done]. by apply Hjson.
  - simpl. split; [done|]. split; [done|].
    split; [apply byte_size_bytes_of|]. split.
    + eexists. split; [exact Hblob|]. apply byte_size_bytes_of.
    + split; [done|]. by apply Date_parse_toISOString.
Qed.

End stored_file.

(** ** Forks and duplicates *)

Section forks.
Context `{Runtime}.

Lemma getMessagesById_Ok id r w w1 :
  CloudflareDB.getMessagesById id w = (Ok r, w1) →
  w1 = log_call (D1 (SelectChatById id)) w ∧
  match r with
  | None => chats w !! id = None
  | Some item =>
      ∃ row, chats w !! id = Some row ∧
             CloudflareDB.item_id item = id ∧
             CloudflareDB.item_urlId item = chat_urlId row ∧
             CloudflareDB.item_description item = chat_description row ∧
             JSON_parse (chat_messages row)
               = Some (CloudflareDB.item_messages item) ∧
             read_metadata (chat_metadata row)
               = Some (CloudflareDB.item_metadata item)
  end.
Proof.
  unfold CloudflareDB.getMessagesById. rewrite logged_id. unfold d1.
  intros Hrun. apply bind_Ok in Hrun as (results & w0 & Hq & Hrun).
  apply backend_Ok in Hq as [_ [= <- <-]].
  destruct (chats w !! id) as [row|] eqn:Hrow.
  - apply fmap_Ok in Hrun as (item & Hitem & ->).
    apply item_of_row_inv in Hitem as (-> & Hitem). split; [done|].
    by exists row.
  - by injection Hrun as <- <-.
Qed.

Lemma getMessagesByUrlId_Ok urlId r w w1 :
  CloudflareDB.getMessagesByUrlId urlId w = (Ok r, w1) →
  w1 = log_call (D1 (SelectChatByUrlId urlId)) w ∧
  match r with
  | None => SQL.chats_with_urlId (chats w) urlId = []
  | Some item =>
      ∃ row, chats w !! CloudflareDB.item_id item = Some row ∧
             chat_urlId row = Some urlId ∧
             CloudflareDB.item_urlId item = chat_urlId row ∧
             CloudflareDB.item_description item = chat_description row ∧
             JSON_parse (chat_messages row)
               = Some (CloudflareDB.item_messages item) ∧
             read_metadata (chat_metadata row)
               = Some (CloudflareDB.item_metadata item)
  end.
Proof.
  unfold CloudflareDB.getMessagesByUrlId. rewrite logged_id. unfold d1.
  intros Hrun. apply bind_Ok in Hrun as (results & w0 & Hq & Hrun).
  apply backend_Ok in Hq as [_ [= <- <-]].
  destruct (SQL.chats_with_urlId (chats w) urlId) as [|[id row] rest] eqn:Hrows.
  - by injection Hrun as <- <-.
  - apply fmap_Ok in Hrun as (item & Hitem & ->).
    apply item_of_row_inv in Hitem as (-> & Hid & Hitem). split; [done|].
    assert ((id, row) ∈ SQL.chats_with_urlId (chats w) urlId) as Hin
      by (rewrite Hrows; left).
    unfold SQL.chats_with_urlId in Hin.
    apply list_elem_of_filter in Hin as [Hu Hin]. simpl in Hu.
    apply elem_of_map_to_list in Hin.
    exists row. rewrite Hid. by destruct Hitem as (? & ? & ? & ?).
Qed.


(** A successful [createChatFromMessages] leaves a row under the id it
    returns, with the description and the messages given. *)
Lemma createChatFromMessages_Ok description messages metadata w id w' :
  CloudflareDB.createChatFromMessages description messages metadata w
    = (Ok id, w') →
  ∃ row, chats w' !! id = Some row ∧
         chat_description row = Some description ∧
         chat_messages row = JSON_stringify messages ∧
         (∀ m, metadata = Some m → chat_metadata row = Some (JSON_stringify m)).
Proof.
  unfold CloudflareDB.createChatFromMessages. rewrite logged_id.
  intros Hrun. apply bind_Ok in Hrun as (id' & w1 & _ & Hrun).
  apply bind_Ok in Hrun as (urlId & w2 & _ & Hrun).
  apply bind_Ok in Hrun as (tt & w3 & Hset & Hrun).
  destruct (ret_Ok _ _ _ _ Hrun) as [-> ->]. destruct tt.
  apply setMessages_Ok in Hset as (Hchats & _).
  eexists. split; [by rewrite Hchats, lookup_insert_eq|].
  destruct (upserted_row_given (chats w2 !! id) (Some urlId)
              (JSON_stringify messages) (Some description)
              (final_timestamp None w2) (JSON_stringify <$> metadata))
    as (_ & Hd & Hm).
  split; [by apply Hd|]. split; [apply upserted_row_messages|].
  intros m ->. by apply Hm.
Qed.


End forks.

(** ** The theorems at work on the reference runtime *)

(** The example of the specification: the url ids ["5"] and ["5-2"] are
    taken, so ["5"] becomes ["5-3"]. *)
Lemma getUrlId_first_free_witness :
  (CloudflareDB.getUrlId "5"
     (Reference.with_chats [("5", Some "5"); ("6", Some "5-2")])).1
  = Ok "5-3".
Proof.
  destruct (getUrlId_first_free "5"
              (Reference.with_chats [("5", Some "5"); ("6", Some "5-2")])
              eq_refl) as (r & Hr & _ & _ & _ & H5).
  rewrite Hr. f_equal. apply H5; [done|].
  vm_compute. first [reflexivity | apply perm_swap].
Defined.

(** The example of the specification: the ids ["1"], ["2"] and ["7"] are
    followed by ["8"]. *)
Lemma getNextId_max_plus_one_witness :
  (CloudflareDB.getNextId
     (Reference.with_chats [("1", None); ("2", None); ("7", None)])).1
  = Ok "8".
Proof.
  destruct (getNextId_max_plus_one
              (Reference.with_chats [("1", None); ("2", None); ("7", None)])
              eq_refl) as (r & Hr & _ & _ & H8).
  rewrite Hr. f_equal. apply H8. by vm_compute.
Defined.

(** A chat is stored with a url id, a description and metadata, then
    stored again with new messages and nothing else: the three stay. *)
Lemma setMessages_coalesces_on_null_witness :
  let meta := {| Reference.gitUrl := "https://example.org/r.git";
                 Reference.gitBranch := Some "main";
                 Reference.netlifySiteId := None |} in
  let w1 := (CloudflareDB.setMessages (H := Reference.runtime) "1" [hello]
               (Some "first") (Some "demo") None (Some meta)
               (Reference.fresh 0)).2 in
  let w2 := (CloudflareDB.setMessages (H := Reference.runtime) "1"
               [hello; reply] None None None None w1).2 in
  ∃ row, chats w2 !! "1" = Some row ∧
         chat_messages row
           = JSON_stringify (JSON := Reference.json_msgs) [hello; reply] ∧
         chat_urlId row = Some "first" ∧
         chat_description row = Some "demo" ∧
         chat_metadata row
           = Some (JSON_stringify (JSON := Reference.json_metadata) meta).
Proof.
  intros meta w1 w2.
  destruct (setMessages_coalesces_on_null (H := Reference.runtime)
              "1" [hello] [hello; reply] (Some "first") (Some "demo") None
              None None None (Some meta) None (Reference.fresh 0) w1 w2)
    as (row & Hrow & Hmsgs & _ & Hu & Hd & Hm & _).
  - apply run_eq. by vm_compute.
  - apply run_eq. by vm_compute.
  - exists row. split; [done|]. split; [done|].
    split; [by apply Hu|]. split; [by apply Hd|]. by apply Hm.
Defined.


(** The three characters [h], [é] and [€] are stored as six bytes, at a
    time that reads back. *)
Lemma getFileMetadata_after_storeFile_witness :
  let storage := {| storage_prefix := "" |} in
  let w1 := (CloudflareFileManager.storeFile (H := Reference.runtime) storage
               (DataString [104; 233; 8364]) "a.txt" None (Some "text/plain")
               None (Reference.fresh 1762150000123)).2 in
  ∃ record,
    (CloudflareFileManager.getFileMetadata (H := Reference.runtime)
       "file-0" w1).1 = Ok (Some record) ∧
    meta_size record = 6 ∧
    meta_timestamp record = "2025-11-03T06:06:40.123Z" ∧
    Date.parse (H := Reference.runtime) (meta_timestamp record)
      = Some 1762150000123.
Proof.
  intros storage w1.
  destruct (getFileMetadata_after_storeFile (H := Reference.runtime) storage
              (DataString [104; 233; 8364]) "a.txt" None (Some "text/plain")
              None (Reference.fresh 1762150000123) w1 "file-0")
    as (record & Hget & _ & Hsize & _ & _ & Hts & Hparse).
  - apply run_eq. by vm_compute.
  - done.
  - unfold Date.time_value, Date.max_time. simpl. lia.
  - done.
  - exists record. split; [done|]. split; [by rewrite Hsize|].
    split; [by rewrite Hts|]. exact Hparse.
Defined.


(** * Further properties *)

(** ** The object store, operation by operation *)

Section accepted.

Lemma accepts_next n w : accepts (S n) w → next_reject w = None.
Proof.
  intros Hacc. unfold next_reject.
  rewrite <-(Nat.add_0_r (length (calls w))). apply Hacc. lia.
Qed.

Lemma accepts_log n c w : accepts (S n) w → accepts n (log_call c w).
Proof.
  intros Hacc i Hi. simpl. rewrite length_app. simpl.
  replace (length (calls w) + 1 + i)%nat with (length (calls w) + S i)%nat by lia.
  apply Hacc. lia.
Qed.

Lemma accepts_le n m w : (m ≤ n)%nat → accepts n w → accepts m w.
Proof. intros Hle Hacc i Hi. apply Hacc. lia. Qed.

Lemma accepts_same n w w' :
  calls w' = calls w → rejects w' = rejects w → accepts n w → accepts n w'.
Proof. intros Hc Hr Hacc i Hi. rewrite Hc, Hr. by apply Hacc. Qed.

End accepted.

Section object_store_runs.
Context `{Runtime} (this : CloudflareStorage).

Lemma storage_storeFile_run key data metadata w :
  next_reject w = None →
  CloudflareStorage.storeFile this key data metadata w =
    (Ok (CloudflareStorage.getFullKey this key),
     set_bucket (<[CloudflareStorage.getFullKey this key :=
                    stored_object data metadata]> (bucket w))
       (log_call (R2Put (CloudflareStorage.getFullKey this key)) w)).
Proof.
  intros Hacc. unfold CloudflareStorage.storeFile.
  unfold logged, try_catch, backend, mbind, M_bind. by rewrite Hacc.
Qed.

Lemma storage_getFile_run key w :
  accepts 2 w →
  (CloudflareStorage.getFile this key w).1 =
    Ok (obj_body <$> bucket w !! CloudflareStorage.getFullKey this key).
Proof.
  intros Hacc. unfold CloudflareStorage.getFile.
  unfold logged, try_catch, mbind, M_bind.
  rewrite backend_accepted by (by eapply accepts_next). simpl.
  destruct (bucket w !! _) as [o|]; [|done].
  rewrite backend_accepted
    by (apply (accepts_next 0); by apply accepts_log).
  done.
Qed.

Lemma storage_getFileMetadata_run key w :
  next_reject w = None →
  (CloudflareStorage.getFileMetadata this key w).1 =
    Ok (obj_customMetadata
          <$> bucket w !! CloudflareStorage.getFullKey this key).
Proof.
  intros Hacc. unfold CloudflareStorage.getFileMetadata.
  unfold logged, try_catch, backend, mbind, M_bind.
  rewrite Hacc. simpl. by destruct (bucket w !! _).
Qed.

Lemma storage_deleteFile_run key w :
  next_reject w = None →
  CloudflareStorage.deleteFile this key w =
    (Ok (),
     set_bucket (delete (CloudflareStorage.getFullKey this key) (bucket w))
       (log_call (R2Delete (CloudflareStorage.getFullKey this key)) w)).
Proof.
  intros Hacc. unfold CloudflareStorage.deleteFile.
  unfold logged, try_catch, backend. by rewrite Hacc.
Qed.


(** X2.  [deleteFile] of the object store succeeds whether or not there is
    an object, and twice in a row; after it the key is gone: [getFile]
    and [getFileMetadata] return null and [fileExists] false. *)
Theorem storage_delete_is_idempotent (key : string) (w : World) :
  accepts 2 w →
  let run1 := CloudflareStorage.deleteFile this key w in
  let run2 := CloudflareStorage.deleteFile this key run1.2 in
  run1.1 = Ok () ∧ run2.1 = Ok () ∧ bucket run2.2 = bucket run1.2 ∧
  (accepts 2 run1.2 →
   (CloudflareStorage.getFile this key run1.2).1 = Ok None ∧
   (CloudflareStorage.getFileMetadata this key run1.2).1 = Ok None ∧
   (CloudflareStorage.fileExists this key run1.2).1 = Ok false).
Proof.
  intros Hacc run1 run2. unfold run2, run1.
  rewrite (storage_deleteFile_run key w) by (by eapply accepts_next).
  set (w1 := set_bucket _ _). cbn [fst snd].
  assert (bucket w1 !! CloudflareStorage.getFullKey this key = None) as Hgone
    by apply lookup_delete_eq.
  assert (next_reject w1 = None) as Hacc1.
  { apply (accepts_next 0).
    apply (accepts_same _ (log_call
             (R2Delete (CloudflareStorage.getFullKey this key)) w));
      [done|done|]. by apply accepts_log. }
  rewrite storage_deleteFile_run by done. cbn [fst snd].
  split; [done|]. split; [done|]. split.
  - simpl. by rewrite delete_delete_eq.
  - intros Hacc2.
    rewrite storage_getFile_run by done.
    rewrite storage_getFileMetadata_run by done.
    rewrite fileExists_run, Hacc1, Hgone. simpl.
    by repeat split.
Qed.

End object_store_runs.

Lemma accepts_fresh n t0 : accepts n (Reference.fresh t0).
Proof. by intros i _. Qed.


(** Deleting a key that was never stored succeeds, twice. *)
Lemma storage_delete_is_idempotent_witness :
  let this := {| storage_prefix := "" |} in
  let run1 := CloudflareStorage.deleteFile this "a.txt" (Reference.fresh 0) in
  let run2 := CloudflareStorage.deleteFile this "a.txt" run1.2 in
  run1.1 = Ok () ∧ run2.1 = Ok () ∧ bucket run2.2 = bucket run1.2 ∧
  (accepts 2 run1.2 →
   (CloudflareStorage.getFile this "a.txt" run1.2).1 = Ok None ∧
   (CloudflareStorage.getFileMetadata this "a.txt" run1.2).1 = Ok None ∧
   (CloudflareStorage.fileExists this "a.txt" run1.2).1 = Ok false).
Proof.
  exact (storage_delete_is_idempotent {| storage_prefix := "" |} "a.txt"
           (Reference.fresh 0) (accepts_fresh 2 0)).
Defined.

Section object_store_update.
Context (this : CloudflareStorage).

(** X3.  [updateFileMetadata] on a key without an object throws
    [File not found: <full key>] after the [get] and writes nothing; on a
    key with an object it keeps the bytes and replaces the metadata as a
    whole, keeping none of the old fields. *)
Theorem updateFileMetadata_replaces_or_throws
    (key : string) (metadata : gmap string (option string)) (w : World) :
  next_reject w = None →
  let fullKey := CloudflareStorage.getFullKey this key in
  let run := CloudflareStorage.updateFileMetadata this key metadata w in
  match bucket w !! fullKey with
  | None =>
      run.1 = Throw (JsError ("File not found: " +:+ fullKey)) ∧
      bucket run.2 = bucket w ∧ calls run.2 = calls w ++ [R2Get fullKey]
  | Some o =>
      accepts 3 w →
      run.1 = Ok () ∧
      bucket run.2 = <[fullKey := {| obj_body := obj_body o;
                                     obj_customMetadata := Some metadata |}]>
                       (bucket w)
  end.
Proof.
  intros Hacc fullKey run. unfold run, CloudflareStorage.updateFileMetadata.
  unfold logged, try_catch, mbind, M_bind.
  rewrite backend_accepted by done. cbn [bucket log_call].
  fold fullKey. destruct (bucket w !! fullKey) as [o|]; [|done].
  intros Hacc3.
  rewrite backend_accepted
    by (apply (accepts_next 1); by apply accepts_log).
  unfold mret, M_ret.
  rewrite backend_accepted.
  - done.
  - apply (accepts_next 0). apply accepts_log. by apply accepts_log.
Qed.

End object_store_update.

(** Metadata is replaced as a whole: the field [b] of the old metadata is
    gone after an update that gives only [a]. *)
Lemma updateFileMetadata_replaces_or_throws_witness :
  let this := {| storage_prefix := "" |} in
  let w := (CloudflareStorage.storeFile this "k" (DataString [104; 105])
              (Some {[ "b" := Some "old" ]}) (Reference.fresh 0)).2 in
  let run := CloudflareStorage.updateFileMetadata this "k"
               {[ "a" := Some "new" ]} w in
  run.1 = Ok () ∧
  bucket run.2 !! "k" = Some {| obj_body := [104; 105];
                                obj_customMetadata :=
                                  Some {[ "a" := Some "new" ]} |}.
Proof.
  intros this w run.
  pose proof (updateFileMetadata_replaces_or_throws this "k"
                {[ "a" := Some "new" ]} w eq_refl) as Hupd.
  cbv zeta in Hupd. fold run in Hupd.
  change (bucket w !! CloudflareStorage.getFullKey this "k")
    with (Some {| obj_body := [104; 105];
                  obj_customMetadata := Some {[ "b" := Some "old" ]} |})
    in Hupd.
  destruct Hupd as [Hok Hbucket]; [by intros i _|].
  split; [done|]. by rewrite Hbucket.
Defined.

(** ** The file manager beyond its two writes *)

Section file_manager_more.
Context `{Runtime} (storage : CloudflareStorage).

(** X4.  When R2 accepts the [put] and the [INSERT] is not carried out
    (D1 rejects the call, or the row violates a constraint), [storeFile]
    throws that error and makes no further call: the blob stays in the
    bucket under the new id, and no row describes it. *)
Theorem storeFile_leaves_orphan_blob
    (fileData : FileData) (path : string) (chatId contentType : option string)
    (metadata : option (gmap string string)) (w : World) (e : Error) :
  let id := entropy w (uuids w) in
  let key := CloudflareStorage.getFullKey storage id in
  let row := {| file_chatId := or_null chatId; file_path := path;
                file_contentType := or_null contentType;
                file_size := byte_size fileData;
                file_timestamp := Date.toISOString (clock w (dates w));
                file_metadata := JSON_stringify <$> metadata |} in
  let run := CloudflareFileManager.storeFile storage
               fileData path chatId contentType metadata w in
  next_reject w = None →
  rejects w (S (length (calls w))) = Some e ∨
  (rejects w (S (length (calls w))) = None ∧
   SQL.insert_file id row (chats w) (files w) = Throw e) →
  run.1 = Throw e ∧
  files run.2 = files w ∧
  (∃ blob, bucket run.2 !! key = Some blob ∧ obj_body blob = bytes_of fileData) ∧
  calls run.2 = calls w ++ [R2Put key; D1 (InsertFile id)].
Proof.
  intros id key row run Hput Hins.
  pose proof (storeFile_run storage fileData path chatId contentType metadata w)
    as Hrun.
  cbv zeta in Hrun. fold id key row run in Hrun. destruct run as [r w'].
  rewrite Hput in Hrun. destruct Hrun as (Hcalls & Hbucket & Hrun). simpl.
  assert (r = Throw e ∧ files w' = files w) as [-> Hfiles].
  { destruct Hins as [Hrej|[Hacc Hrow]].
    - by rewrite Hrej in Hrun.
    - by rewrite Hacc, Hrow in Hrun. }
  split; [done|]. split; [done|]. split; [|done].
  eexists. split; [by rewrite Hbucket, lookup_insert_eq|done].
Qed.

(** X5.  [deleteFile] of the file manager, when R2 and D1 accept its two
    calls, succeeds whether or not the file exists and leaves neither blob
    nor row under the id, so that [getFileMetadata] returns null; a second
    [deleteFile] succeeds as well and changes nothing. *)
Theorem deleteFile_removes_blob_and_row (id : string) (w : World) :
  accepts 2 w →
  let key := CloudflareStorage.getFullKey storage id in
  let run1 := CloudflareFileManager.deleteFile storage id w in
  run1.1 = Ok () ∧
  bucket run1.2 !! key = None ∧ files run1.2 !! id = None ∧
  (next_reject run1.2 = None →
   (CloudflareFileManager.getFileMetadata id run1.2).1 = Ok None) ∧
  (accepts 2 run1.2 →
   let run2 := CloudflareFileManager.deleteFile storage id run1.2 in
   run2.1 = Ok () ∧ bucket run2.2 = bucket run1.2 ∧ files run2.2 = files run1.2).
Proof.
  intros Hacc key run1.
  assert (∀ w0, accepts 2 w0 →
            let run := CloudflareFileManager.deleteFile storage id w0 in
            run.1 = Ok () ∧ bucket run.2 = delete key (bucket w0) ∧
            files run.2 = delete id (files w0)) as Hdel.
  { intros w0 Hacc0. pose proof (deleteFile_run storage id w0) as Hrun.
    cbv zeta in Hrun. fold key in Hrun.
    destruct (CloudflareFileManager.deleteFile storage id w0) as [r w'].
    rewrite (accepts_next _ _ Hacc0) in Hrun.
    destruct Hrun as (_ & Hbucket & Hrun).
    assert (rejects w0 (S (length (calls w0))) = None) as Hsecond.
    { replace (S (length (calls w0))) with (length (calls w0) + 1)%nat by lia.
      apply Hacc0. lia. }
    rewrite Hsecond in Hrun. by destruct Hrun. }
  destruct (Hdel w Hacc) as (Hok & Hbucket & Hfiles). fold run1 in Hok, Hbucket, Hfiles.
  split; [done|]. split; [by rewrite Hbucket, lookup_delete_eq|].
  split; [by rewrite Hfiles, lookup_delete_eq|]. split.
  - intros Hnext. unfold CloudflareFileManager.getFileMetadata.
    unfold logged, try_catch, d1, mbind, M_bind.
    rewrite backend_accepted by done. cbn [files log_call].
    by rewrite Hfiles, lookup_delete_eq.
  - intros Hacc2 run2. destruct (Hdel run1.2 Hacc2) as (Hok2 & Hbucket2 & Hfiles2).
    fold run2 in Hok2, Hbucket2, Hfiles2.
    split; [done|]. split.
    + by rewrite Hbucket2, Hbucket, delete_delete_eq.
    + by rewrite Hfiles2, Hfiles, delete_delete_eq.
Qed.

End file_manager_more.

(** A file for a chat that does not exist: the [INSERT] breaks the foreign
    key, [storeFile] throws, and the blob is left behind. *)
Lemma storeFile_leaves_orphan_blob_witness :
  let storage := {| storage_prefix := "" |} in
  let run := CloudflareFileManager.storeFile (H := Reference.runtime) storage
               (DataString [104; 105]) "a.txt" (Some "no-such-chat") None None
               (Reference.fresh 0) in
  run.1 = Throw (ConstraintViolation "FOREIGN KEY constraint failed") ∧
  files run.2 = files (Reference.fresh 0) ∧
  (∃ blob, bucket run.2 !! "file-0" = Some blob ∧ obj_body blob = [104; 105]) ∧
  calls run.2 = [R2Put "file-0"; D1 (InsertFile "file-0")].
Proof.
  apply (storeFile_leaves_orphan_blob (H := Reference.runtime)
           {| storage_prefix := "" |} (DataString [104; 105]) "a.txt"
           (Some "no-such-chat") None None (Reference.fresh 0)
           (ConstraintViolation "FOREIGN KEY constraint failed")).
  - done.
  - right. split; [done|]. by vm_compute.
Defined.

(** A stored file is deleted: its metadata is gone. *)
Lemma deleteFile_removes_blob_and_row_witness :
  let storage := {| storage_prefix := "" |} in
  let w := (CloudflareFileManager.storeFile (H := Reference.runtime) storage
              (DataString [104; 105]) "a.txt" None None None
              (Reference.fresh 0)).2 in
  let run1 := CloudflareFileManager.deleteFile storage "file-0" w in
  run1.1 = Ok () ∧
  bucket run1.2 !! "file-0" = None ∧ files run1.2 !! "file-0" = None.
Proof.
  intros storage w run1.
  destruct (deleteFile_removes_blob_and_row (H := Reference.runtime) storage
              "file-0" w) as (Hok & Hblob & Hrow & _).
  - by intros i _.
  - done.
Defined.

(** ** The chat store: timestamps and lookups *)

Section chat_store_more.
Context `{Runtime}.

(** X6.  [setMessages] with a timestamp that is not empty and that
    [Date.parse] cannot read throws [Invalid timestamp] before any call to
    D1, leaving everything as it was.  A timestamp that it does store is
    stored as given, and is either readable or the empty string, which
    the check lets through. *)
Theorem setMessages_checks_timestamp
    (id : string) (messages : list Message) (urlId description : option string)
    (ts : string) (metadata : option IChatMetadata) (w : World) :
  (ts ≠ "" → Date.parse ts = None →
   CloudflareDB.setMessages id messages urlId description (Some ts) metadata w
     = (Throw (JsError "Invalid timestamp"), w)) ∧
  (∀ w', CloudflareDB.setMessages id messages urlId description (Some ts)
           metadata w = (Ok (), w') →
         (ts = "" ∨ is_Some (Date.parse ts)) ∧
         ∃ row, chats w' !! id = Some row ∧ chat_timestamp row = ts).
Proof.
  split.
  - intros Hne Hnan. unfold CloudflareDB.setMessages.
    unfold logged, try_catch, mbind, M_bind. simpl.
    rewrite (bool_decide_eq_false_2 (ts = "")) by done.
    rewrite (bool_decide_eq_true_2 (Date.parse ts = None)) by done. done.
  - intros w' Hrun. split.
    + destruct (decide (ts = "")) as [|Hne]; [by left|right].
      destruct (Date.parse ts) as [t|] eqn:Hparse; [by eexists|].
      exfalso. revert Hrun. unfold CloudflareDB.setMessages.
      unfold logged, try_catch, mbind, M_bind. simpl.
      rewrite (bool_decide_eq_false_2 (ts = "")) by done.
      rewrite (bool_decide_eq_true_2 (Date.parse ts = None)) by done. done.
    + apply setMessages_Ok in Hrun as (Hchats & _).
      eexists. split; [by rewrite Hchats, lookup_insert_eq|].
      apply upserted_row_messages.
Qed.

(** X7.  [setMessages] without a timestamp stores the ISO string of the
    clock's time, and [Date.parse] reads that string back to the same
    time: the timestamp it writes passes its own check. *)
Theorem setMessages_default_timestamp_is_valid
    (id : string) (messages : list Message) (urlId description : option string)
    (metadata : option IChatMetadata) (w w' : World) :
  CloudflareDB.setMessages id messages urlId description None metadata w
    = (Ok (), w') →
  Date.time_value (clock w (dates w)) →
  ∃ row, chats w' !! id = Some row ∧
         chat_timestamp row = Date.toISOString (clock w (dates w)) ∧
         Date.parse (chat_timestamp row) = Some (clock w (dates w)) ∧
         dates w' = S (dates w).
Proof.
  intros Hrun Htime.
  assert (dates w' = S (dates w)) as Hdates.
  { revert Hrun. unfold CloudflareDB.setMessages.
    unfold logged, try_catch, d1, backend, Date_now, mbind, M_bind, fmap, M_fmap.
    simpl. destruct (rejects w (length (calls w))); [done|].
    destruct (SQL.upsert_chat _ _ _ _ _ _ _); [|done].
    by intros [= <-]. }
  apply setMessages_Ok in Hrun as (Hchats & _).
  eexists. split; [by rewrite Hchats, lookup_insert_eq|].
  destruct (upserted_row_messages (chats w !! id) urlId (JSON_stringify messages)
              description (final_timestamp None w) (JSON_stringify <$> metadata))
    as [_ Hts].
  rewrite Hts. simpl. split; [done|]. split; [|done].
  by apply Date_parse_toISOString.
Qed.

Lemma chats_with_urlId_unique (t : gmap string ChatRow) (u j : string) row :
  t !! j = Some row → chat_urlId row = Some u →
  (∀ j' row', t !! j' = Some row' → chat_urlId row' = Some u → j' = j) →
  SQL.chats_with_urlId t u = [(j, row)].
Proof.
  intros Hrow Hu Huniq. unfold SQL.chats_with_urlId.
  set (l := filter _ _).
  assert (NoDup l) as Hnd.
  { apply NoDup_filter, NoDup_map_to_list. }
  assert (∀ e, e ∈ l ↔ e = (j, row)) as Hall.
  { intros [j' row']. unfold l. rewrite list_elem_of_filter, elem_of_map_to_list.
    simpl. split.
    - intros [Hu' Hrow']. assert (j' = j) as -> by eauto. congruence.
    - by intros [= -> ->]. }
  destruct l as [|e l'].
  - exfalso. by apply (elem_of_nil (j, row)), Hall.
  - assert (e = (j, row)) as -> by (apply Hall; left).
    destruct l' as [|e' l'']; [done|].
    assert (e' = (j, row)) as -> by (apply Hall; right; left).
    apply NoDup_cons in Hnd as [Hnotin _]. exfalso. apply Hnotin. left.
Qed.

(** X8.  [getMessages] with an identifier that is the id of no row, when
    D1 answers both queries: it returns null if no row has the identifier
    as its url id either, and otherwise the record of the row that has
    it, under that row's own id. *)
Theorem getMessages_falls_back_to_urlId (x : string) (w : World) :
  accepts 2 w →
  chats w !! x = None →
  ((∀ j row, chats w !! j = Some row → chat_urlId row ≠ Some x) →
   (CloudflareDB.getMessages x w).1 = Ok None) ∧
  (∀ j row messages metadata,
     chats w !! j = Some row → chat_urlId row = Some x →
     (∀ j' row', chats w !! j' = Some row' → chat_urlId row' = Some x → j' = j) →
     JSON_parse (chat_messages row) = Some messages →
     read_metadata (chat_metadata row) = Some metadata →
     (CloudflareDB.getMessages x w).1 =
       Ok (Some {| CloudflareDB.item_id := j;
                   CloudflareDB.item_urlId := Some x;
                   CloudflareDB.item_messages := messages;
                   CloudflareDB.item_description := chat_description row;
                   CloudflareDB.item_timestamp := chat_timestamp row;
                   CloudflareDB.item_metadata := metadata |})).
Proof.
  intros Hacc Hnone.
  assert (CloudflareDB.getMessages x w =
          CloudflareDB.getMessagesByUrlId x (log_call (D1 (SelectChatById x)) w))
    as ->.
  { unfold CloudflareDB.getMessages, CloudflareDB.getMessagesById.
    unfold logged at 1 2, try_catch, d1, mbind, M_bind.
    rewrite backend_accepted by (by eapply accepts_next).
    cbn [chats log_call]. rewrite Hnone. simpl.
    by destruct (CloudflareDB.getMessagesByUrlId x _) as [[?|?] ?]. }
  unfold CloudflareDB.getMessagesByUrlId.
  unfold logged, try_catch, d1, mbind, M_bind.
  rewrite backend_accepted
    by (apply (accepts_next 0); by apply accepts_log).
  cbn [chats log_call]. split.
  - intros Hno.
    destruct (SQL.chats_with_urlId (chats w) x) as [|[j row] rest] eqn:Hrows;
      [done|].
    exfalso. apply (Hno j row).
    + assert ((j, row) ∈ SQL.chats_with_urlId (chats w) x) as Hin
        by (rewrite Hrows; left).
      apply list_elem_of_filter in Hin as [_ Hin].
      by apply elem_of_map_to_list in Hin.
    + assert ((j, row) ∈ SQL.chats_with_urlId (chats w) x) as Hin
        by (rewrite Hrows; left).
      by apply list_elem_of_filter in Hin as [Hu _].
  - intros j row messages metadata Hrow Hu Huniq Hmsgs Hmeta.
    rewrite (chats_with_urlId_unique _ x j row Hrow Hu Huniq).
    unfold fmap, M_fmap.
    rewrite (item_of_row_Ok j row messages metadata) by done.
    simpl. by rewrite Hu.
Qed.

End chat_store_more.

(** The timestamp ["yesterday"] is refused before D1 is called; an empty
    timestamp is not checked and is stored as it is. *)
Lemma setMessages_checks_timestamp_witness :
  let w := Reference.fresh 0 in
  let run := CloudflareDB.setMessages (H := Reference.runtime) "1" [hello]
               None None (Some "") None w in
  CloudflareDB.setMessages (H := Reference.runtime) "1" [hello]
    None None (Some "yesterday") None w
    = (Throw (JsError "Invalid timestamp"), w) ∧
  run.1 = Ok () ∧
  ∃ row, chats run.2 !! "1" = Some row ∧ chat_timestamp row = "".
Proof.
  intros w run. split; [|split; [done|]].
  - by apply (proj1 (setMessages_checks_timestamp (H := Reference.runtime) "1"
                      [hello] None None "yesterday" None w)).
  - by apply (proj2 (setMessages_checks_timestamp (H := Reference.runtime) "1"
                      [hello] None None "" None w) run.2 (run_eq _ _ _ eq_refl)).
Defined.

(** A chat stored at 2025-11-03T06:06:40.123Z without a timestamp. *)
Lemma setMessages_default_timestamp_is_valid_witness :
  let w' := (CloudflareDB.setMessages (H := Reference.runtime) "1" [hello]
               None None None None (Reference.fresh 1762150000123)).2 in
  ∃ row, chats w' !! "1" = Some row ∧
         chat_timestamp row = "2025-11-03T06:06:40.123Z" ∧
         Date.parse (H := Reference.runtime) (chat_timestamp row)
           = Some 1762150000123.
Proof.
  intros w'.
  destruct (setMessages_default_timestamp_is_valid (H := Reference.runtime)
              "1" [hello] None None None (Reference.fresh 1762150000123) w')
    as (row & Hrow & Hts & Hparse & _).
  - apply run_eq. by vm_compute.
  - unfold Date.time_value, Date.max_time. simpl. lia.
  - exists row. split; [done|]. split; [by rewrite Hts|done].
Defined.

Lemma with_chats_single id u j row :
  chats (Reference.with_chats [(id, u)]) !! j = Some row →
  j = id ∧ row = Reference.empty_chat u.
Proof.
  unfold Reference.with_chats. simpl. intros Hrow.
  apply lookup_insert_Some in Hrow as [[<- <-]|[_ Hrow]]; [done|].
  by rewrite lookup_empty in Hrow.
Qed.

(** The chat ["7"] has the url id ["my-chat"]: asking for ["my-chat"]
    returns the chat ["7"], asking for ["other"] returns null. *)
Lemma getMessages_falls_back_to_urlId_witness :
  let w := Reference.with_chats [("7", Some "my-chat")] in
  (CloudflareDB.getMessages (H := Reference.runtime) "other" w).1 = Ok None ∧
  ∃ item, (CloudflareDB.getMessages (H := Reference.runtime) "my-chat" w).1
            = Ok (Some item) ∧
          CloudflareDB.item_id item = "7".
Proof.
  intros w. split.
  - apply (getMessages_falls_back_to_urlId (H := Reference.runtime) "other" w);
      [by intros i _|done|].
    intros j row Hrow Hu.
    apply with_chats_single in Hrow as [-> ->]. discriminate Hu.
  - eexists. split.
    + apply (proj2 (getMessages_falls_back_to_urlId (H := Reference.runtime)
                      "my-chat" w (accepts_fresh 2 0) eq_refl)
               "7" (Reference.empty_chat (Some "my-chat")) [] None);
        [done|done| |done|done].
      intros j' row' Hrow' _.
      by apply with_chats_single in Hrow' as [-> _].
    + done.
Defined.

(** ** Forks *)

Section forks_more.
Context `{Runtime}.

Lemma getMessages_Ok_None id w w1 :
  CloudflareDB.getMessages id w = (Ok None, w1) →
  chats w1 = chats w ∧ files w1 = files w ∧ bucket w1 = bucket w.
Proof.
  unfold CloudflareDB.getMessages. rewrite logged_id.
  intros Hrun. apply bind_Ok in Hrun as (byId & w0 & HbyId & Hrun).
  apply getMessagesById_Ok in HbyId as [-> _].
  destruct byId as [item|]; [done|].
  by apply getMessagesByUrlId_Ok in Hrun as [-> _].
Qed.

Lemma getMessages_Ok_frame id r w w1 :
  CloudflareDB.getMessages id w = (Ok r, w1) →
  chats w1 = chats w ∧ files w1 = files w ∧ bucket w1 = bucket w.
Proof.
  destruct r as [item|]; [|apply getMessages_Ok_None].
  unfold CloudflareDB.getMessages. rewrite logged_id.
  intros Hrun. apply bind_Ok in Hrun as (byId & w0 & HbyId & Hrun).
  apply getMessagesById_Ok in HbyId as [-> _].
  destruct byId as [item'|].
  - by injection Hrun as <- <-.
  - by apply getMessagesByUrlId_Ok in Hrun as [-> _].
Qed.

(** X9.  [forkChat] throws [Chat not found] when [getMessages] finds no
    chat, and [Message not found] when no message of the chat has the id
    given; in both cases it has only read: the tables are as they were. *)
Theorem forkChat_not_found (chatId messageId : string) (w w0 : World) :
  let run := CloudflareDB.forkChat chatId messageId w in
  (CloudflareDB.getMessages chatId w = (Ok None, w0) →
   run = (Throw (JsError "Chat not found"), w0) ∧ chats w0 = chats w) ∧
  (∀ chat,
     CloudflareDB.getMessages chatId w = (Ok (Some chat), w0) →
     (∀ msg, msg ∈ CloudflareDB.item_messages chat → Message_id msg ≠ messageId) →
     run = (Throw (JsError "Message not found"), w0) ∧ chats w0 = chats w).
Proof.
  intros run. unfold run, CloudflareDB.forkChat. split.
  - intros Hget. split; [|by apply getMessages_Ok_None in Hget as [? _]].
    unfold logged, try_catch, mbind, M_bind. by rewrite Hget.
  - intros chat Hget Hnone.
    split; [|by apply getMessages_Ok_frame in Hget as [? _]].
    unfold logged, try_catch, mbind, M_bind. rewrite Hget.
    unfold CloudflareDB.findIndex.
    destruct (list_find _ _) as [[k msg]|] eqn:Hfind; [|done].
    apply list_find_Some in Hfind as (Hk & Hid & _).
    exfalso. apply (Hnone msg); [|done]. by eapply list_elem_of_lookup_2.
Qed.

(** X10.  The chat that a successful [forkChat] creates holds the messages
    of the source chat up to and including the first one with the id
    given, and no later one. *)
Theorem forkChat_copies_prefix
    (chatId messageId newId : string) (w w' : World) :
  CloudflareDB.forkChat chatId messageId w = (Ok newId, w') →
  ∃ chat w0 k msg row,
    CloudflareDB.getMessages chatId w = (Ok (Some chat), w0) ∧
    CloudflareDB.item_messages chat !! k = Some msg ∧
    Message_id msg = messageId ∧
    (∀ i msg', (i < k)%nat → CloudflareDB.item_messages chat !! i = Some msg' →
               Message_id msg' ≠ messageId) ∧
    chats w' !! newId = Some row ∧
    chat_messages row
      = JSON_stringify (take (S k) (CloudflareDB.item_messages chat)) ∧
    last (take (S k) (CloudflareDB.item_messages chat)) = Some msg.
Proof.
  unfold CloudflareDB.forkChat. rewrite logged_id.
  intros Hrun. apply bind_Ok in Hrun as (chat & w0 & Hget & Hrun).
  destruct chat as [chat|]; [|done].
  unfold CloudflareDB.findIndex in Hrun.
  destruct (list_find _ _) as [[k msg]|] eqn:Hfind; [|done]. simpl in Hrun.
  apply list_find_Some in Hfind as (Hk & Hid & Hfirst).
  apply createChatFromMessages_Ok in Hrun as (row & Hrow & _ & Hmsgs & _).
  exists chat, w0, k, msg, row. repeat split; try done.
  - intros i msg' Hi Hmsg'. by eapply Hfirst.
  - rewrite (take_S_r _ _ msg) by done. by rewrite last_snoc.
Qed.

End forks_more.

(** A chat of two messages forked at the first: the fork succeeds, so its
    row holds a prefix of the source chat that ends with the message
    asked for. *)
Lemma forkChat_copies_prefix_witness :
  let w := (CloudflareDB.createChatFromMessages (H := Reference.runtime)
              "demo" [hello; reply] None (Reference.fresh 0)).2 in
  let run := CloudflareDB.forkChat (H := Reference.runtime) "1" "m1" w in
  run.1 = Ok "2" ∧
  ∃ chat w0 k msg row,
    CloudflareDB.getMessages (H := Reference.runtime) "1" w
      = (Ok (Some chat), w0) ∧
    CloudflareDB.item_messages chat !! k = Some msg ∧
    Message_id (Runtime := Reference.runtime) msg = "m1" ∧
    (∀ i msg', (i < k)%nat → CloudflareDB.item_messages chat !! i = Some msg' →
               Message_id (Runtime := Reference.runtime) msg' ≠ "m1") ∧
    chats run.2 !! "2" = Some row ∧
    chat_messages row
      = JSON_stringify (JSON := Reference.json_msgs)
          (take (S k) (CloudflareDB.item_messages chat)) ∧
    last (take (S k) (CloudflareDB.item_messages chat)) = Some msg.
Proof.
  intros w run.
  assert (run.1 = Ok "2") as Hok by (by vm_compute).
  split; [done|].
  exact (forkChat_copies_prefix (H := Reference.runtime) "1" "m1" "2"
           w run.2 (run_eq _ _ _ Hok)).
Defined.

(** ** Ids read back: [CAST(String(n) AS INTEGER)] *)

Section ids.

Lemma digit_value_pretty_N_char (d : N) :
  (d < 10)%N → digit_value (pretty_N_char d) = Some (Z.of_N d).
Proof.
  intros Hd.
  assert (d = 0 ∨ d = 1 ∨ d = 2 ∨ d = 3 ∨ d = 4 ∨ d = 5 ∨ d = 6 ∨ d = 7
          ∨ d = 8 ∨ d = 9)%N as Hcases by lia.
  repeat (destruct Hcases as [->|Hcases]; [done|]). by subst.
Qed.

(** A string that starts with a digit is read from its first character
    on, without a sign. *)
Lemma cast_integer_digit (d : N) (rest : string) :
  (d < 10)%N →
  SQL.cast_integer (String (pretty_N_char d) rest)
  = SQL.clamp_int64 (SQL.digits_value 0 (String (pretty_N_char d) rest)).
Proof.
  intros Hd.
  assert (d = 0 ∨ d = 1 ∨ d = 2 ∨ d = 3 ∨ d = 4 ∨ d = 5 ∨ d = 6 ∨ d = 7
          ∨ d = 8 ∨ d = 9)%N as Hcases by lia.
  repeat (destruct Hcases as [->|Hcases]; [done|]). by subst.
Qed.

(** The digits of [x] written before [s] are read as [x], after whatever
    was read before them. *)
Lemma digits_value_pretty_N_go (x : N) :
  ∃ k, 0 ≤ k ∧ ∀ acc s,
    SQL.digits_value acc (pretty_N_go x s)
    = SQL.digits_value (acc * 10 ^ k + Z.of_N x) s.
Proof.
  induction (N.lt_wf_0 x) as [x _ IH].
  destruct (decide (x = 0)%N) as [->|Hpos].
  - exists 0. split; [done|]. intros acc s. rewrite pretty_N_go_0. f_equal. lia.
  - destruct (IH (x `div` 10)%N) as (k & Hk & Hread).
    { apply N.div_lt; lia. }
    exists (k + 1). split; [lia|]. intros acc s.
    rewrite pretty_N_go_step by lia. rewrite Hread. simpl.
    rewrite digit_value_pretty_N_char by (apply N.mod_lt; lia).
    f_equal. rewrite Z.pow_add_r by lia.
    rewrite (N.div_mod x 10) at 3 by lia.
    rewrite N2Z.inj_add, N2Z.inj_mul. simpl Z.of_N. lia.
Qed.

Lemma pretty_N_go_head (x : N) (s : string) :
  (0 < x)%N →
  ∃ d rest, (d < 10)%N ∧ pretty_N_go x s = String (pretty_N_char d) rest.
Proof.
  revert s. induction (N.lt_wf_0 x) as [x _ IH]. intros s Hpos.
  rewrite pretty_N_go_step by done.
  destruct (decide (x `div` 10 = 0)%N) as [Hz|Hnz].
  - rewrite Hz, pretty_N_go_0. eexists _, _. split; [|done].
    apply N.mod_lt. lia.
  - apply IH; [apply N.div_lt; lia|by apply N.neq_0_lt_0].
Qed.

Lemma clamp_int64_in_range z :
  - 2 ^ 63 ≤ z < 2 ^ 63 → SQL.clamp_int64 z = z.
Proof. unfold SQL.clamp_int64. lia. Qed.

(** The decimal of a 64-bit integer casts back to it. *)
Lemma cast_integer_pretty (z : Z) :
  - 2 ^ 63 ≤ z < 2 ^ 63 → SQL.cast_integer (pretty z) = z.
Proof.
  intros Hz. destruct z as [|p|p].
  - done.
  - change (pretty (Z.pos p)) with (pretty_N_go (N.pos p) "").
    destruct (pretty_N_go_head (N.pos p) "") as (d & rest & Hd & Hhead); [lia|].
    rewrite Hhead, cast_integer_digit, <-Hhead by done.
    destruct (digits_value_pretty_N_go (N.pos p)) as (k & _ & ->).
    simpl. by apply clamp_int64_in_range.
  - change (pretty (Z.neg p)) with (String "-" (pretty_N_go (N.pos p) "")).
    unfold SQL.cast_integer. simpl SQL.skip_spaces.
    destruct (digits_value_pretty_N_go (N.pos p)) as (k & _ & ->).
    simpl. by apply clamp_int64_in_range.
Qed.

(** The id computed from the greatest id, when the ids are safe
    integers: ["1"] on an empty table, the decimal of the greatest id
    plus one otherwise, which reads back as that number. *)
Lemma next_id_value (t : gmap string ChatRow) :
  (∀ id, id ∈ dom t → Z.abs (SQL.cast_integer id) < 2 ^ 53) →
  let r := Number.toString (Number.add (highestId t) 1) in
  (t = ∅ ∧ r = "1") ∨
  (∃ m, Z.abs m < 2 ^ 53 ∧ (∃ id, id ∈ dom t ∧ SQL.cast_integer id = m) ∧
        (∀ id, id ∈ dom t → SQL.cast_integer id ≤ m) ∧
        SQL.cast_integer r = m + 1).
Proof.
  intros Hsafe. unfold highestId.
  destruct (SQL.max_id t) as [m|] eqn:Hm.
  - right. apply max_id_spec in Hm as [(id & Hid & Hcast) Hle].
    assert (Z.abs m < 2 ^ 53) as Hm by (rewrite <-Hcast; by apply Hsafe).
    assert (Number.toString (Number.add (if m =? 0 then 0 else m) 1)
            = pretty (m + 1)) as Hnext.
    { destruct (Z.eqb_spec m 0) as [->|_]; by apply toString_add_one. }
    simpl. rewrite round53_safe by done. rewrite Hnext.
    exists m. split; [done|]. split; [by exists id|]. split; [done|].
    apply cast_integer_pretty. lia.
  - left. apply max_id_empty in Hm. by rewrite Hm.
Qed.

(** It is the id of no row, and reads as more than every id. *)
Lemma next_id_fresh (t : gmap string ChatRow) :
  (∀ id, id ∈ dom t → Z.abs (SQL.cast_integer id) < 2 ^ 53) →
  let r := Number.toString (Number.add (highestId t) 1) in
  t !! r = None ∧ (∀ id, id ∈ dom t → SQL.cast_integer id < SQL.cast_integer r).
Proof.
  intros Hsafe r.
  destruct (next_id_value t Hsafe) as [[-> _]|(m & _ & _ & Hle & Hr)].
  - split; [done|]. intros id Hid. rewrite dom_empty_L in Hid.
    by apply elem_of_empty in Hid.
  - fold r in Hr.
    assert (∀ id, id ∈ dom t → SQL.cast_integer id < SQL.cast_integer r)
      as Hless.
    { intros id Hid. specialize (Hle id Hid). lia. }
    split; [|done].
    apply not_elem_of_dom. intros Hin. specialize (Hless _ Hin). lia.
Qed.

(** It is a safe integer itself when the ids leave room for it. *)
Lemma next_id_safe (t : gmap string ChatRow) :
  (∀ id, id ∈ dom t → Z.abs (SQL.cast_integer id) < 2 ^ 53 - 1) →
  Z.abs (SQL.cast_integer (Number.toString (Number.add (highestId t) 1)))
  < 2 ^ 53.
Proof.
  intros Hroom.
  destruct (next_id_value t) as [[_ ->]|(m & _ & (id & Hid & Hcast) & _ & ->)].
  - intros id Hid. specialize (Hroom id Hid). lia.
  - done.
  - specialize (Hroom id Hid). lia.
Qed.

(** X11.  When every id of the table reads as a safe integer, the id that
    [getNextId] returns is the id of no row, and it reads as more than
    every id of the table: ids are handed out in increasing order and none
    is handed out twice. *)
Theorem getNextId_is_fresh (w : World) :
  next_reject w = None →
  (∀ id, id ∈ dom (chats w) → Z.abs (SQL.cast_integer id) < 2 ^ 53) →
  ∃ r, (CloudflareDB.getNextId w).1 = Ok r ∧
       chats w !! r = None ∧
       (∀ id, id ∈ dom (chats w) → SQL.cast_integer id < SQL.cast_integer r).
Proof.
  intros Hacc Hsafe. rewrite getNextId_run by done. eexists. split; [done|].
  by apply next_id_fresh.
Qed.

End ids.

(** After the ids ["1"], ["2"] and ["7"], the id handed out is taken by no
    row. *)
Lemma getNextId_is_fresh_witness :
  let w := Reference.with_chats [("1", None); ("2", None); ("7", None)] in
  ∃ r, (CloudflareDB.getNextId w).1 = Ok r ∧
       chats w !! r = None ∧
       (∀ id, id ∈ dom (chats w) → SQL.cast_integer id < SQL.cast_integer r).
Proof.
  intros w. apply (getNextId_is_fresh w eq_refl).
  intros id Hid.
  assert (dom (chats w) = {["1"; "2"; "7"]}) as Hdom by (by vm_compute).
  rewrite Hdom in Hid. rewrite !elem_of_union, !elem_of_singleton in Hid.
  destruct Hid as [[->| ->]| ->]; by vm_compute.
Defined.

(** ** New chats *)

Lemma accepts_after n l w w' :
  calls w' = calls w ++ l → rejects w' = rejects w →
  accepts (length l + n) w → accepts n w'.
Proof.
  intros Hc Hr Hacc i Hi. rewrite Hc, Hr, length_app, <-Nat.add_assoc.
  apply Hacc. lia.
Qed.

Section new_chats.
Context `{Runtime}.

(** The run of [createChatFromMessages] when D1 accepts its three
    statements and the ids are safe integers. *)
Lemma createChatFromMessages_run
    (description : string) (messages : list Message)
    (metadata : option IChatMetadata) (w : World) :
  accepts 3 w →
  (∀ id, id ∈ dom (chats w) → Z.abs (SQL.cast_integer id) < 2 ^ 53) →
  let id := Number.toString (Number.add (highestId (chats w)) 1) in
  let u := getUrlId_pure (SQL.urlIds (chats w)) id in
  ∃ w',
    CloudflareDB.createChatFromMessages description messages metadata w
      = (Ok id, w') ∧
    chats w !! id = None ∧
    (∀ j row, chats w !! j = Some row → chat_urlId row ≠ Some u) ∧
    chats w' = <[id := {| chat_urlId := Some u;
                          chat_messages := JSON_stringify messages;
                          chat_description := Some description;
                          chat_timestamp :=
                            Date.toISOString (clock w (dates w));
                          chat_metadata := JSON_stringify <$> metadata |}]>
                 (chats w) ∧
    calls w' = calls w ++ [D1 SelectMaxId; D1 SelectUrlIds; D1 (UpsertChat id)] ∧
    rejects w' = rejects w.
Proof.
  intros Hacc Hsafe id u.
  destruct (next_id_fresh (chats w) Hsafe) as [Hfresh _]. fold id in Hfresh.
  assert (∀ j row, chats w !! j = Some row → chat_urlId row ≠ Some u) as Hfree.
  { intros j row Hrow Hu.
    destruct (getUrlId_pure_spec (SQL.urlIds (chats w)) id) as [Hnotin _].
    apply Hnotin, elem_of_urlIds. eauto. }
  eexists. split; [|split; [done|split; [done|]]].
  - unfold CloudflareDB.createChatFromMessages. rewrite logged_id.
    unfold mbind at 1, M_bind at 1.
    rewrite getNextId_run by (by eapply accepts_next). fold id.
    unfold mbind at 1, M_bind at 1.
    rewrite getUrlId_run
      by (apply (accepts_next 1); by apply accepts_log).
    cbn [chats log_call]. fold u.
    unfold CloudflareDB.setMessages. unfold mbind at 1, M_bind at 1.
    rewrite logged_id. simpl truthy. cbn [andb].
    unfold mbind, M_bind, mret, M_ret, fmap, M_fmap, Date_now, d1.
    rewrite backend_accepted.
    + cbn [chats log_call tick_date]. unfold SQL.upsert_chat.
      rewrite Hfresh. cbn [SQL.upserted_row chat_urlId].
      destruct (decide (SQL.urlId_taken (chats w) id u)) as [Htaken|_].
      * exfalso. destruct Htaken as (j & row & Hrow & _ & Hu).
        by apply (Hfree j row).
      * reflexivity.
    + apply (accepts_next 0).
      apply (accepts_same _ (log_call (D1 SelectUrlIds)
                               (log_call (D1 SelectMaxId) w))); [done|done|].
      apply accepts_log. by apply accepts_log.
  - simpl. split; [done|]. split; [|done]. by rewrite <-!app_assoc.
Qed.

(** X12.  [createChatFromMessages], when D1 accepts its three statements
    and the ids of the table read as safe integers, succeeds: the id it
    returns is the id of no earlier row and the url id it chooses is the
    url id of no earlier row, so the insert neither overwrites a chat nor
    breaks the [UNIQUE] constraint; the new row holds what was given and
    the time of the call, and every other row is as it was. *)
Theorem createChatFromMessages_succeeds
    (description : string) (messages : list Message)
    (metadata : option IChatMetadata) (w : World) :
  accepts 3 w →
  (∀ id, id ∈ dom (chats w) → Z.abs (SQL.cast_integer id) < 2 ^ 53) →
  ∃ id u w',
    CloudflareDB.createChatFromMessages description messages metadata w
      = (Ok id, w') ∧
    chats w !! id = None ∧
    (∀ j row, chats w !! j = Some row → chat_urlId row ≠ Some u) ∧
    chats w' = <[id := {| chat_urlId := Some u;
                          chat_messages := JSON_stringify messages;
                          chat_description := Some description;
                          chat_timestamp :=
                            Date.toISOString (clock w (dates w));
                          chat_metadata := JSON_stringify <$> metadata |}]>
                 (chats w) ∧
    calls w' = calls w ++ [D1 SelectMaxId; D1 SelectUrlIds; D1 (UpsertChat id)].
Proof.
  intros Hacc Hsafe.
  destruct (createChatFromMessages_run description messages metadata w
              Hacc Hsafe) as (w' & Hrun & Hfresh & Hfree & Hchats & Hcalls & _).
  by eexists _, _, w'.
Qed.

(** X13.  Two chats created one after the other, when D1 accepts the six
    statements and the ids leave room below [2^53]: both calls succeed,
    the two ids differ, the two url ids differ, and both chats are in the
    table afterwards, each with its own description and messages. *)
Theorem createChatFromMessages_twice
    (d1 d2 : string) (m1 m2 : list Message)
    (md1 md2 : option IChatMetadata) (w : World) :
  accepts 6 w →
  (∀ id, id ∈ dom (chats w) → Z.abs (SQL.cast_integer id) < 2 ^ 53 - 1) →
  ∃ id1 id2 w1 w2 row1 row2,
    CloudflareDB.createChatFromMessages d1 m1 md1 w = (Ok id1, w1) ∧
    CloudflareDB.createChatFromMessages d2 m2 md2 w1 = (Ok id2, w2) ∧
    id1 ≠ id2 ∧
    chats w2 !! id1 = Some row1 ∧ chats w2 !! id2 = Some row2 ∧
    is_Some (chat_urlId row1) ∧ is_Some (chat_urlId row2) ∧
    chat_urlId row1 ≠ chat_urlId row2 ∧
    chat_description row1 = Some d1 ∧ chat_description row2 = Some d2 ∧
    chat_messages row1 = JSON_stringify m1 ∧
    chat_messages row2 = JSON_stringify m2.
Proof.
  intros Hacc Hroom.
  assert (∀ id, id ∈ dom (chats w) → Z.abs (SQL.cast_integer id) < 2 ^ 53)
    as Hsafe.
  { intros id Hid. specialize (Hroom id Hid). lia. }
  destruct (createChatFromMessages_run d1 m1 md1 w) as
    (w1 & Hrun1 & Hfresh1 & Hfree1 & Hchats1 & Hcalls1 & Hrej1);
    [by eapply accepts_le; [|done]; lia|done|].
  set (id1 := Number.toString (Number.add (highestId (chats w)) 1)) in *.
  set (u1 := getUrlId_pure (SQL.urlIds (chats w)) id1) in *.
  set (row1 := Build_ChatRow _ _ _ _ _) in Hchats1.
  assert (accepts 3 w1) as Hacc1.
  { by apply (accepts_after 3 _ w _ Hcalls1 Hrej1). }
  assert (∀ id, id ∈ dom (chats w1) → Z.abs (SQL.cast_integer id) < 2 ^ 53)
    as Hsafe1.
  { intros id. rewrite Hchats1, dom_insert_L, elem_of_union, elem_of_singleton.
    intros [->|Hid]; [by apply next_id_safe|by apply Hsafe]. }
  destruct (createChatFromMessages_run d2 m2 md2 w1 Hacc1 Hsafe1) as
    (w2 & Hrun2 & Hfresh2 & Hfree2 & Hchats2 & _).
  set (id2 := Number.toString (Number.add (highestId (chats w1)) 1)) in *.
  set (u2 := getUrlId_pure (SQL.urlIds (chats w1)) id2) in *.
  set (row2 := Build_ChatRow _ _ _ _ _) in Hchats2.
  assert (chats w1 !! id1 = Some row1) as Hrow1
    by (by rewrite Hchats1, lookup_insert_eq).
  assert (id1 ≠ id2) as Hne by congruence.
  exists id1, id2, w1, w2, row1, row2.
  split; [done|]. split; [done|]. split; [done|].
  split; [by rewrite Hchats2, lookup_insert_ne|].
  split; [by rewrite Hchats2, lookup_insert_eq|].
  split; [by eexists|]. split; [by eexists|].
  split; [|done].
  intros Hsame. by apply (Hfree2 id1 row1).
Qed.

End new_chats.

(** The chat ["2"] already has the url id ["3"]: the new chat gets the id
    ["3"] and another url id. *)
Lemma createChatFromMessages_succeeds_witness :
  let w := Reference.with_chats [("1", None); ("2", Some "3")] in
  ∃ id u w',
    CloudflareDB.createChatFromMessages (H := Reference.runtime)
      "demo" [hello] None w = (Ok id, w') ∧
    chats w !! id = None ∧
    (∀ j row, chats w !! j = Some row → chat_urlId row ≠ Some u) ∧
    chats w' = <[id := {| chat_urlId := Some u;
                          chat_messages :=
                            JSON_stringify (JSON := Reference.json_msgs) [hello];
                          chat_description := Some "demo";
                          chat_timestamp :=
                            Date.toISOString (clock w (dates w));
                          chat_metadata := None |}]>
                 (chats w) ∧
    calls w' = calls w ++ [D1 SelectMaxId; D1 SelectUrlIds; D1 (UpsertChat id)].
Proof.
  intros w.
  apply (createChatFromMessages_succeeds (H := Reference.runtime)
           "demo" [hello] None w).
  - by intros i _.
  - intros id Hid.
    assert (dom (chats w) = {["1"; "2"]}) as Hdom by (by vm_compute).
    rewrite Hdom in Hid. rewrite !elem_of_union, !elem_of_singleton in Hid.
    destruct Hid as [->| ->]; by vm_compute.
Defined.

(** Two chats created on an empty table. *)
Lemma createChatFromMessages_twice_witness :
  ∃ id1 id2 w1 w2 row1 row2,
    CloudflareDB.createChatFromMessages (H := Reference.runtime)
      "one" [hello] None (Reference.fresh 0) = (Ok id1, w1) ∧
    CloudflareDB.createChatFromMessages (H := Reference.runtime)
      "two" [hello; reply] None w1 = (Ok id2, w2) ∧
    id1 ≠ id2 ∧
    chats w2 !! id1 = Some row1 ∧ chats w2 !! id2 = Some row2 ∧
    is_Some (chat_urlId row1) ∧ is_Some (chat_urlId row2) ∧
    chat_urlId row1 ≠ chat_urlId row2 ∧
    chat_description row1 = Some "one" ∧ chat_description row2 = Some "two" ∧
    chat_messages row1 = JSON_stringify (JSON := Reference.json_msgs) [hello] ∧
    chat_messages row2
      = JSON_stringify (JSON := Reference.json_msgs) [hello; reply].
Proof.
  apply (createChatFromMessages_twice (H := Reference.runtime)
           "one" "two" [hello] [hello; reply] None None (Reference.fresh 0)).
  - apply accepts_fresh.
  - intros id Hid. by apply elem_of_empty in Hid.
Defined.

(** ** Rejected statements *)

Section chat_store_propagation.
Context `{Runtime}.

Lemma Date_now_faithful : faithful Date_now.
Proof. by apply quiet_faithful. Qed.

Lemma item_of_row_faithful id row : faithful (CloudflareDB.item_of_row id row).
Proof. unfold CloudflareDB.item_of_row. faithful. Qed.

Lemma getMessagesById_faithful id : faithful (CloudflareDB.getMessagesById id).
Proof.
  unfold CloudflareDB.getMessagesById.
  repeat (first [apply item_of_row_faithful | faithful_step]).
Qed.

Lemma getMessagesByUrlId_faithful urlId :
  faithful (CloudflareDB.getMessagesByUrlId urlId).
Proof.
  unfold CloudflareDB.getMessagesByUrlId.
  repeat (first [apply item_of_row_faithful | faithful_step]).
Qed.

Lemma getMessages_faithful id : faithful (CloudflareDB.getMessages id).
Proof.
  unfold CloudflareDB.getMessages.
  repeat (first [apply getMessagesById_faithful
                 | apply getMessagesByUrlId_faithful | faithful_step]).
Qed.

Lemma getNextId_faithful : faithful CloudflareDB.getNextId.
Proof. unfold CloudflareDB.getNextId. faithful. Qed.

Lemma getUrlId_faithful id : faithful (CloudflareDB.getUrlId id).
Proof. unfold CloudflareDB.getUrlId, CloudflareDB.getUrlIds. faithful. Qed.

Lemma setMessages_faithful id messages urlId description timestamp metadata :
  faithful (CloudflareDB.setMessages id messages urlId description timestamp
              metadata).
Proof.
  unfold CloudflareDB.setMessages.
  apply faithful_logged, faithful_bind.
  { destruct (_ && _); [apply faithful_throw|apply faithful_ret]. }
  intros _. apply faithful_bind.
  { destruct timestamp; [apply faithful_ret|].
    apply faithful_fmap, Date_now_faithful. }
  intros finalTimestamp. apply faithful_backend. intros w.
  by destruct (SQL.upsert_chat _ _ _ _ _ _ _).
Qed.

Lemma createChatFromMessages_faithful description messages metadata :
  faithful (CloudflareDB.createChatFromMessages description messages metadata).
Proof.
  unfold CloudflareDB.createChatFromMessages.
  repeat (first [apply getNextId_faithful | apply getUrlId_faithful
                 | apply setMessages_faithful | faithful_step]).
Qed.

Lemma forkChat_faithful chatId messageId :
  faithful (CloudflareDB.forkChat chatId messageId).
Proof.
  unfold CloudflareDB.forkChat.
  repeat (first [apply getMessages_faithful
                 | apply createChatFromMessages_faithful | faithful_step]).
Qed.

Lemma duplicateChat_faithful id : faithful (CloudflareDB.duplicateChat id).
Proof.
  unfold CloudflareDB.duplicateChat.
  repeat (first [apply getMessages_faithful
                 | apply createChatFromMessages_faithful | faithful_step]).
Qed.

(** X14.  No function of the chat store swallows the failure of a
    statement: when D1 rejects a statement that the function issues, the
    function throws that very error. *)
Theorem chat_store_propagates :
  (∀ id messages urlId description timestamp metadata,
     propagates (CloudflareDB.setMessages id messages urlId description
                   timestamp metadata)) ∧
  (∀ id, propagates (CloudflareDB.getMessages id)) ∧
  (∀ urlId, propagates (CloudflareDB.getMessagesByUrlId urlId)) ∧
  (∀ id, propagates (CloudflareDB.getMessagesById id)) ∧
  propagates CloudflareDB.getNextId ∧
  (∀ id, propagates (CloudflareDB.getUrlId id)) ∧
  (∀ chatId messageId, propagates (CloudflareDB.forkChat chatId messageId)) ∧
  (∀ id, propagates (CloudflareDB.duplicateChat id)) ∧
  (∀ description messages metadata,
     propagates (CloudflareDB.createChatFromMessages description messages
                   metadata)).
Proof.
  repeat split; intros; apply faithful_propagates.
  - apply setMessages_faithful.
  - apply getMessages_faithful.
  - apply getMessagesByUrlId_faithful.
  - apply getMessagesById_faithful.
  - apply getNextId_faithful.
  - apply getUrlId_faithful.
  - apply forkChat_faithful.
  - apply duplicateChat_faithful.
  - apply createChatFromMessages_faithful.
Qed.

End chat_store_propagation.

Section file_manager_propagation.
Context `{Runtime} (storage : CloudflareStorage).

Lemma randomUUID_faithful : faithful randomUUID.
Proof. by apply quiet_faithful. Qed.

Lemma manager_storeFile_faithful fileData path chatId contentType metadata :
  faithful (CloudflareFileManager.storeFile storage fileData path chatId
              contentType metadata).
Proof.
  unfold CloudflareFileManager.storeFile.
  apply faithful_logged, faithful_bind; [apply randomUUID_faithful|].
  intros id. apply faithful_bind; [apply storeFile_faithful|].
  intros _. apply faithful_bind.
  { apply faithful_fmap, Date_now_faithful. }
  intros timestamp. apply faithful_bind; [|intros _; apply faithful_ret].
  apply faithful_backend. intros w.
  by destruct (SQL.insert_file _ _ _ _).
Qed.

Lemma manager_deleteFile_faithful id :
  faithful (CloudflareFileManager.deleteFile storage id).
Proof.
  unfold CloudflareFileManager.deleteFile.
  apply faithful_logged, faithful_bind; [apply deleteFile_faithful|].
  intros _. apply faithful_backend. by intros w.
Qed.

Lemma manager_getFileMetadata_faithful id :
  faithful (CloudflareFileManager.getFileMetadata id).
Proof. unfold CloudflareFileManager.getFileMetadata. faithful. Qed.

(** X15.  No operation of the file manager swallows a failure of R2 or of
    D1: when a call that the operation makes is rejected, the operation
    throws that very error. *)
Theorem file_manager_propagates :
  (∀ fileData path chatId contentType metadata,
     propagates (CloudflareFileManager.storeFile storage fileData path chatId
                   contentType metadata)) ∧
  (∀ id, propagates (CloudflareFileManager.getFile storage id)) ∧
  (∀ id, propagates (CloudflareFileManager.getFileAsText storage id)) ∧
  (∀ id, propagates (CloudflareFileManager.deleteFile storage id)) ∧
  (∀ id, propagates (CloudflareFileManager.getFileMetadata id)).
Proof.
  repeat split; intros; apply faithful_propagates.
  - apply manager_storeFile_faithful.
  - apply faithful_logged, getFile_faithful.
  - apply faithful_logged, getFileAsText_faithful.
  - apply manager_deleteFile_faithful.
  - apply manager_getFileMetadata_faithful.
Qed.

End file_manager_propagation.

(** ** Copies *)

Section copies.
Context `{Runtime}.

(** X16.  [duplicateChat] throws [Chat not found] when [getMessages] finds
    no chat, having only read; the chat that a successful [duplicateChat]
    creates holds all the messages of the source chat, and its metadata
    when the source has some. *)
Theorem duplicateChat_copies_or_throws (id : string) (w : World) :
  let run := CloudflareDB.duplicateChat id w in
  (∀ w0, CloudflareDB.getMessages id w = (Ok None, w0) →
         run = (Throw (JsError "Chat not found"), w0) ∧ chats w0 = chats w) ∧
  (∀ newId w',
     run = (Ok newId, w') →
     ∃ chat w0 row,
       CloudflareDB.getMessages id w = (Ok (Some chat), w0) ∧
       chats w' !! newId = Some row ∧
       chat_messages row = JSON_stringify (CloudflareDB.item_messages chat) ∧
       (∀ m, CloudflareDB.item_metadata chat = Some m →
             chat_metadata row = Some (JSON_stringify m))).
Proof.
  intros run. unfold run, CloudflareDB.duplicateChat. split.
  - intros w0 Hget. split; [|by apply getMessages_Ok_None in Hget as [? _]].
    unfold logged, try_catch, mbind, M_bind. by rewrite Hget.
  - intros newId w'. rewrite logged_id.
    intros Hrun. apply bind_Ok in Hrun as (chat & w0 & Hget & Hrun).
    destruct chat as [chat|]; [|done].
    apply createChatFromMessages_Ok in Hrun as (row & Hrow & _ & Hmsgs & Hmeta).
    by exists chat, w0, row.
Qed.

End copies.

(** A chat of two messages is duplicated: the copy holds both. *)
Lemma duplicateChat_copies_or_throws_witness :
  let w := (CloudflareDB.createChatFromMessages (H := Reference.runtime)
              "demo" [hello; reply] None (Reference.fresh 0)).2 in
  ∃ chat w0 row,
    CloudflareDB.getMessages (H := Reference.runtime) "1" w
      = (Ok (Some chat), w0) ∧
    chats (CloudflareDB.duplicateChat (H := Reference.runtime) "1" w).2 !! "2"
      = Some row ∧
    chat_messages row
      = JSON_stringify (JSON := Reference.json_msgs)
          (CloudflareDB.item_messages chat) ∧
    (∀ m, CloudflareDB.item_metadata chat = Some m →
          chat_metadata row = Some (JSON_stringify m)).
Proof.
  intros w.
  assert ((CloudflareDB.duplicateChat (H := Reference.runtime) "1" w).1
          = Ok "2") as Hok by (by vm_compute).
  exact (proj2 (duplicateChat_copies_or_throws (H := Reference.runtime) "1" w)
           "2" _ (run_eq _ _ _ Hok)).
Defined.

(** ** Keys that share a full key *)

Section aliases.

Lemma string_app_cons c (x y : string) : String c x +:+ y = String c (x +:+ y).
Proof. reflexivity. Qed.

Lemma string_app_assoc (x y z : string) : (x +:+ y) +:+ z = x +:+ (y +:+ z).
Proof.
  induction x as [|c x IH]; [done|]. by rewrite !string_app_cons, IH.
Qed.

(** Two slashes in a row are collapsed like one, wherever they stand. *)
Lemma collapse_slashes_double (x y : string) :
  Str.collapse_slashes (x +:+ String "/" (String "/" y))
  = Str.collapse_slashes (x +:+ String "/" y).
Proof.
  induction x as [|c x IH].
  - change ("" +:+ String "/" (String "/" y)) with (String "/" (String "/" y)).
    change ("" +:+ String "/" y) with (String "/" y).
    simpl. by destruct y.
  - rewrite !string_app_cons. cbn [Str.collapse_slashes].
    destruct (decide (c = "/"%char)) as [->|Hc]; [|by rewrite IH].
    destruct x as [|c' x].
    + change ("" +:+ String "/" (String "/" y)) with (String "/" (String "/" y)).
      change ("" +:+ String "/" y) with (String "/" y).
      simpl. by destruct y.
    + rewrite !string_app_cons in *.
      destruct (decide (c' = "/"%char)); by rewrite IH.
Qed.

Context (this : CloudflareStorage).

(** X17.  Under a non-empty instance prefix, a key with a doubled slash
    and the key with a single one name the same object: what is stored
    under [a//b] is what [getFile] returns for [a/b], and a later store
    under [a/b] replaces it. *)
Theorem storage_slash_runs_alias
    (a b : string) (data : FileData)
    (metadata : option (gmap string (option string))) (w : World) :
  storage_prefix this ≠ "" →
  next_reject w = None →
  let doubled := a +:+ "//" +:+ b in
  let single := a +:+ "/" +:+ b in
  let run := CloudflareStorage.storeFile this doubled data metadata w in
  CloudflareStorage.getFullKey this doubled
    = CloudflareStorage.getFullKey this single ∧
  (accepts 2 run.2 →
   (CloudflareStorage.getFile this single run.2).1 = Ok (Some (bytes_of data))).
Proof.
  intros Hprefix Hacc doubled single run.
  assert (CloudflareStorage.getFullKey this doubled
          = CloudflareStorage.getFullKey this single) as Hkey.
  { unfold CloudflareStorage.getFullKey, doubled, single.
    destruct (decide (storage_prefix this = "")) as [|_]; [done|].
    assert (∀ rest, storage_prefix this +:+ "/" +:+ a +:+ rest
                    = (storage_prefix this +:+ "/" +:+ a) +:+ rest) as Hassoc.
    { intros rest. by rewrite string_app_assoc. }
    rewrite !Hassoc. apply collapse_slashes_double. }
  split; [done|]. intros Hacc2.
  rewrite storage_getFile_run by done. rewrite <-Hkey.
  unfold run. rewrite storage_storeFile_run by done. cbn [snd bucket set_bucket].
  by rewrite lookup_insert_eq.
Qed.

End aliases.

(** Under the prefix ["p"], the keys ["a//b"] and ["a/b"] are one. *)
Lemma storage_slash_runs_alias_witness :
  let this := {| storage_prefix := "p" |} in
  let run := CloudflareStorage.storeFile this "a//b" (DataString [104; 105])
               None (Reference.fresh 0) in
  CloudflareStorage.getFullKey this "a//b" = "p/a/b" ∧
  (accepts 2 run.2 →
   (CloudflareStorage.getFile this "a/b" run.2).1 = Ok (Some [104; 105])).
Proof.
  intros this run.
  destruct (storage_slash_runs_alias this "a" "b" (DataString [104; 105]) None
              (Reference.fresh 0)) as [Hkey Hread]; [done|done|].
  split; [done|]. exact Hread.
Defined.

(** ** What a stored file carries *)

Section file_manager_stored.
Context `{Runtime} (storage : CloudflareStorage).


End file_manager_stored.

